(** * pinterest-dl: crawl, registry, pruning and caption pipeline

    A shallow embedding of [src/pinterest_dl/scrapers/scraper_base.py]
    ([_ScraperBase]) and of the browser pipeline of [src/gui.py]
    ([patched_scrape], [scrape_images]), with the properties the
    specification states about them.

    Python objects are modelled by records, dicts by [gmap], sets by [gset],
    exceptions by an explicit [outcome] type, and the outside world (file
    system, browser session) by explicit values passed to the functions. *)

From Stdlib Require Import Ascii.
From stdpp Require Import gmap strings list pretty.

Open Scope Z_scope.

(* ===================================================================== *)
(** * Python runtime: exceptions, strings, paths                         *)
(* ===================================================================== *)

Module Py.

(** The exception classes that the modelled code raises or names in an
    [except] clause. *)
Inductive exn : Set :=
  | OSError                         (* IOError, socket.error *)
  | TimeoutError                    (* socket.timeout, a subclass of OSError *)
  | JSONDecodeError                 (* a subclass of ValueError *)
  | UnicodeDecodeError              (* a subclass of ValueError *)
  | ValueError
  | TypeError
  | StaleElementReferenceException  (* selenium, a WebDriverException *)
  | NoSuchElementException          (* selenium, a WebDriverException *)
  | WebDriverException
  | KeyboardInterrupt.              (* a BaseException, not an Exception *)

(** [isinstance e cls] for the classes used in [except] clauses. *)
Definition is_OSError (e : exn) : bool :=
  match e with OSError | TimeoutError => true | _ => false end.

Definition is_JSONDecodeError (e : exn) : bool :=
  match e with JSONDecodeError => true | _ => false end.

Definition is_StaleElementReferenceException (e : exn) : bool :=
  match e with StaleElementReferenceException => true | _ => false end.

Definition is_Exception (e : exn) : bool :=
  match e with KeyboardInterrupt => false | _ => true end.

(** The result of a call that may raise. *)
Inductive outcome (A : Type) : Type :=
  | Ok (a : A)
  | Raise (e : exn).
Arguments Ok {A} a.
Arguments Raise {A} e.

Definition is_Ok {A} (o : outcome A) : bool :=
  match o with Ok _ => true | Raise _ => false end.

(** [needle in s] on strings. *)
Fixpoint contains (needle s : string) : bool :=
  String.prefix needle s ||
  match s with
  | EmptyString => false
  | String _ s' => contains needle s'
  end.

(** [s.replace(old, new)] for a non-empty [old]: the occurrences are taken
    left to right and do not overlap. [skip] counts the characters of a
    match still to be dropped. *)
Fixpoint replace_from (old new : string) (skip : nat) (s : string) : string :=
  match s with
  | EmptyString => EmptyString
  | String c s' =>
      match skip with
      | S k => replace_from old new k s'
      | O =>
          if String.prefix old s
          then new +:+ replace_from old new (Nat.pred (String.length old)) s'
          else String c (replace_from old new O s')
      end
  end.

Definition replace (old new s : string) : string := replace_from old new O s.

(** The characters [str.strip()] removes, restricted to one-byte characters. *)
Definition is_space (c : ascii) : bool :=
  let n := nat_of_ascii c in
  ((9 <=? n)%nat && (n <=? 13)%nat) || ((28 <=? n)%nat && (n <=? 32)%nat).

Fixpoint all_space (s : string) : bool :=
  match s with
  | EmptyString => true
  | String c s' => is_space c && all_space s'
  end.

(** Truth value of an [Optional[str]]: [None] and [""] are false. *)
Definition truthy (o : option string) : bool :=
  match o with
  | None => false
  | Some s => negb (String.eqb s "")
  end.

(** [not alt or not alt.strip()] *)
Definition blank (alt : option string) : bool :=
  match alt with
  | None => true
  | Some s => all_space s
  end.

(** Splits a string at the last occurrence of [c]. *)
Fixpoint split_last (c : ascii) (s : string) : option (string * string) :=
  match s with
  | EmptyString => None
  | String a s' =>
      match split_last c s' with
      | Some (d, n) => Some (String a d, n)
      | None => if Ascii.eqb a c then Some (EmptyString, s') else None
      end
  end.

(** ** pathlib, on POSIX path strings in normal form *)

(** [Path(s)]: the empty string denotes the current directory. *)
Definition Path (s : string) : string :=
  if String.eqb s "" then "." else s.

Definition parent (p : string) : string :=
  match split_last "/" p with
  | Some (EmptyString, _) => "/"
  | Some (d, _) => d
  | None => "."
  end.

(** [p / name] for a relative [name]. *)
Definition joinpath (p name : string) : string :=
  if String.eqb p "." then name
  else if String.eqb p "/" then "/" +:+ name
  else p +:+ "/" +:+ name.

Definition name (p : string) : string :=
  if String.eqb p "." then ""
  else match split_last "/" p with
       | Some (_, n) => n
       | None => p
       end.

(** [Path.suffix] and [Path.stem]: the last dot of the name separates them
    unless it is the first or the last character of the name. *)
Definition suffix (p : string) : string :=
  match split_last "." (name p) with
  | Some (String _ _, String c r) => "." +:+ String c r
  | _ => ""
  end.

Definition stem (p : string) : string :=
  match split_last "." (name p) with
  | Some (String a b, String _ _) => String a b
  | _ => name p
  end.

End Py.
Export Py.

(* ===================================================================== *)
(** * The file system                                                    *)
(* ===================================================================== *)

(** Regular files with their contents, directories, and the paths on which
    [open] fails with an [OSError] (permissions and the like). *)
Record filesystem : Type := {
  files : gmap string string;
  dirs : gset string;
  read_denied : gset string;
  write_denied : gset string
}.

(** [Path.exists()] *)
Definition fs_exists (fs : filesystem) (p : string) : bool :=
  bool_decide (is_Some (files fs !! p)) || bool_decide (p ∈ dirs fs).

(** [open(p, "r")] followed by reading the bytes. *)
Definition fs_read (fs : filesystem) (p : string) : outcome string :=
  if bool_decide (p ∈ read_denied fs) then Raise OSError
  else match files fs !! p with
       | Some bytes => Ok bytes
       | None => Raise OSError
       end.

(** [open(p, "w")] followed by writing [content]. *)
Definition fs_write (fs : filesystem) (p content : string) : outcome filesystem :=
  if bool_decide (p ∈ write_denied fs) || bool_decide (p ∈ dirs fs) then Raise OSError
  else Ok {| files := <[p := content]> (files fs);
             dirs := dirs fs;
             read_denied := read_denied fs;
             write_denied := write_denied fs |}.

(* ===================================================================== *)
(** * Data model                                                         *)
(* ===================================================================== *)

(** An item identifier: the browser crawl builds integers ([int(id)]), a
    registry read back from JSON has string keys. *)
Inductive pyid : Set :=
  | IdInt (n : Z)
  | IdStr (s : string).

#[global] Instance pyid_eq_dec : EqDecision pyid.
Proof. solve_decision. Defined.

#[global] Instance pyid_countable : Countable pyid :=
  inj_countable'
    (λ i, match i with IdInt n => inl n | IdStr s => inr s end)
    (λ x, match x with inl n => IdInt n | inr s => IdStr s end)
    (λ i, match i with IdInt _ => eq_refl | IdStr _ => eq_refl end).

(** [str(id)] *)
Definition str (i : pyid) : string :=
  match i with
  | IdInt n => pretty n
  | IdStr s => s
  end.

(** The fields of [PinterestMedia] that the modelled code reads or sets. *)
Record PinterestMedia : Type := {
  id : pyid;
  src : string;
  alt : option string;
  origin : option string;
  resolution : Z * Z;
  video_stream : bool;
  local_path : option string
}.

Definition set_local_path (item : PinterestMedia) (p : string) : PinterestMedia :=
  {| id := id item; src := src item; alt := alt item; origin := origin item;
     resolution := resolution item; video_stream := video_stream item;
     local_path := Some p |}.

(** A registry entry: a JSON object with the optional keys ["path"] and
    ["downloaded_at"]. *)
Record entry : Type := {
  entry_path : option string;
  entry_downloaded_at : option string
}.

(** Log records of the [logging] module. *)
Inductive log_record : Type :=
  | Info (msg : string)
  | Warning (msg : string)
  | Error (msg : string).

(* ===================================================================== *)
(** * scraper_base.py: [_ScraperBase]                                    *)
(* ===================================================================== *)

Module ScraperBase.

(** ** Reading text files: the [utf-8] codec in strict mode *)

(** Well-formed UTF-8: [pending] continuation bytes are still expected and
    the next one has to lie in [lo..hi]. *)
Fixpoint utf8_valid_from (pending : nat) (lo hi : N) (s : string) : bool :=
  match s with
  | EmptyString => Nat.eqb pending 0
  | String c s' =>
      let b := N_of_ascii c in
      match pending with
      | S k => ((lo <=? b) && (b <=? hi))%N && utf8_valid_from k 128 191 s'
      | O =>
          if (b <=? 127)%N then utf8_valid_from 0 128 191 s'
          else if ((194 <=? b) && (b <=? 223))%N then utf8_valid_from 1 128 191 s'
          else if (b =? 224)%N then utf8_valid_from 2 160 191 s'
          else if (b =? 237)%N then utf8_valid_from 2 128 159 s'
          else if ((225 <=? b) && (b <=? 239))%N then utf8_valid_from 2 128 191 s'
          else if (b =? 240)%N then utf8_valid_from 3 144 191 s'
          else if ((241 <=? b) && (b <=? 243))%N then utf8_valid_from 3 128 191 s'
          else if (b =? 244)%N then utf8_valid_from 3 128 143 s'
          else false
      end
  end.

Definition utf8_valid (bytes : string) : bool := utf8_valid_from 0 128 191 bytes.

Section Registry.

(** The JSON codec of the standard library, on registries: [json_loads]
    parses a text (raising [JSONDecodeError] on a text that is not JSON),
    [json_dumps] prints a registry. *)
Variable json_loads : string → outcome (gmap pyid entry).
Variable json_dumps : gmap pyid entry → string.

(** [json.load(f)] on a file opened with [encoding="utf-8"]: [f.read()]
    decodes the bytes, then the text is parsed. *)
Definition json_load (bytes : string) : outcome (gmap pyid entry) :=
  if utf8_valid bytes then json_loads bytes else Raise UnicodeDecodeError.

Definition registry_path (output_dir : string) : string :=
  joinpath (parent output_dir) "downloaded.json".

(** [_load_downloaded_registry], lines 21-31. *)
Definition _load_downloaded_registry (fs : filesystem) (output_dir : string)
  : outcome (gmap pyid entry) * list log_record :=
  if fs_exists fs (registry_path output_dir) then
    match
      match fs_read fs (registry_path output_dir) with
      | Ok bytes => json_load bytes
      | Raise e => Raise e
      end
    with
    | Ok registry => (Ok registry, [])
    | Raise e =>
        if is_JSONDecodeError e || is_OSError e
        then (Ok ∅, [Warning "Failed to load downloaded registry. Starting fresh."])
        else (Raise e, [])
    end
  else (Ok ∅, []).

(** [_save_downloaded_registry], lines 33-41. *)
Definition _save_downloaded_registry (fs : filesystem) (output_dir : string)
    (registry : gmap pyid entry) : outcome filesystem * list log_record :=
  match fs_write fs (registry_path output_dir) (json_dumps registry) with
  | Ok fs' => (Ok fs', [])
  | Raise e =>
      if is_OSError e
      then (Ok fs, [Error "Failed to save downloaded registry"])
      else (Raise e, [])
  end.

End Registry.

(** ** [download_media], lines 66-82: the registry filter *)

(** [Path(registry[item.id].get("path", ""))] *)
Definition registered_path (e : entry) : string :=
  Path (default "" (entry_path e)).

(** The state of the filter loop: the registry, the list [to_download] and
    the items of [media] as the loop leaves them. *)
Record pending : Type := {
  registry_after : gmap pyid entry;
  to_download : list PinterestMedia;
  media_after : list PinterestMedia
}.

Fixpoint filter_loop (fs : filesystem) (media : list PinterestMedia)
    (registry : gmap pyid entry) (to_dl : list PinterestMedia) : pending :=
  match media with
  | [] => {| registry_after := registry; to_download := to_dl; media_after := [] |}
  | item :: rest =>
      match registry !! id item with
      | Some e =>
          if fs_exists fs (registered_path e) then
            (* skip: already downloaded *)
            let r := filter_loop fs rest registry to_dl in
            {| registry_after := registry_after r;
               to_download := to_download r;
               media_after := set_local_path item (registered_path e) :: media_after r |}
          else
            (* file missing, remove from registry *)
            let r := filter_loop fs rest (delete (id item) registry) (to_dl ++ [item]) in
            {| registry_after := registry_after r;
               to_download := to_download r;
               media_after := item :: media_after r |}
      | None =>
          let r := filter_loop fs rest registry (to_dl ++ [item]) in
          {| registry_after := registry_after r;
             to_download := to_download r;
             media_after := item :: media_after r |}
      end
  end.

(** The filter of one invocation of [download_media] on the loaded
    registry; the early return of line 80 hands back [media_after] when
    [to_download] is empty. *)
Definition download_media_filter (fs : filesystem) (registry : gmap pyid entry)
    (media : list PinterestMedia) : pending :=
  filter_loop fs media registry [].

(** An item counts as already downloaded when its id is a key of the
    registry and the path recorded there exists. *)
Definition satisfied (fs : filesystem) (registry : gmap pyid entry)
    (item : PinterestMedia) : bool :=
  match registry !! id item with
  | Some e => fs_exists fs (registered_path e)
  | None => false
  end.

(** The id is a key of the registry but the recorded path is gone. *)
Definition stale (fs : filesystem) (registry : gmap pyid entry)
    (item : PinterestMedia) : bool :=
  match registry !! id item with
  | Some e => negb (fs_exists fs (registered_path e))
  | None => false
  end.

(** What the loop makes of one item of [media]: a satisfied item gets its
    local path from the registry. *)
Definition local_from_registry (fs : filesystem) (loaded : gmap pyid entry)
    (item : PinterestMedia) : PinterestMedia :=
  match loaded !! id item with
  | Some e =>
      if fs_exists fs (registered_path e)
      then set_local_path item (registered_path e) else item
  | None => item
  end.

(** The registry during the loop: the loaded one without some entries whose
    recorded path is gone. *)
Definition repaired (fs : filesystem) (loaded registry : gmap pyid entry) : Prop :=
  ∀ k, registry !! k = loaded !! k ∨
       (registry !! k = None ∧
        ∃ e, loaded !! k = Some e ∧ fs_exists fs (registered_path e) = false).

(** ** [add_captions_to_file], lines 142-168 *)

Section Captions.

(** [json.dumps(img.to_dict(), indent=4)] *)
Variable to_json : PinterestMedia → string.

Definition caption_path (output_dir extension lp : string) : string :=
  joinpath output_dir (stem lp +:+ "." +:+ extension).

Fixpoint caption_loop (output_dir extension : string)
    (images : list PinterestMedia) (fs : filesystem) : filesystem * outcome unit :=
  match images with
  | [] => (fs, Ok ())
  | img :: rest =>
      match local_path img with
      | None => caption_loop output_dir extension rest fs
      | Some lp =>
          let cp := caption_path output_dir extension lp in
          if fs_exists fs cp then caption_loop output_dir extension rest fs
          else if String.eqb extension "json" then
            match fs_write fs cp (to_json img) with
            | Ok fs' => caption_loop output_dir extension rest fs'
            | Raise e => (fs, Raise e)
            end
          else if String.eqb extension "txt" then
            match alt img with
            | Some a =>
                if negb (String.eqb a "") then
                  match fs_write fs cp a with
                  | Ok fs' => caption_loop output_dir extension rest fs'
                  | Raise e => (fs, Raise e)
                  end
                else caption_loop output_dir extension rest fs
            | None => caption_loop output_dir extension rest fs
            end
          else (fs, Raise ValueError)
      end
  end.

(** The text that the loop writes for [img]. *)
Definition sidecar_of (extension : string) (img : PinterestMedia) (content : string) : Prop :=
  (extension = "json" ∧ content = to_json img) ∨
  (extension = "txt" ∧ alt img = Some content ∧ content ≠ "").

(** [output_dir.mkdir(parents=True, exist_ok=True)]; the directories above
    [p] are not tracked. *)
Definition fs_mkdir (fs : filesystem) (p : string) : outcome filesystem :=
  if bool_decide (is_Some (files fs !! p)) then Raise OSError
  else Ok {| files := files fs; dirs := {[p]} ∪ dirs fs;
             read_denied := read_denied fs; write_denied := write_denied fs |}.

Definition add_captions_to_file (images : list PinterestMedia)
    (output_dir extension : string) (fs : filesystem) : filesystem * outcome unit :=
  match fs_mkdir fs output_dir with
  | Raise e => (fs, Raise e)
  | Ok fs' => caption_loop output_dir extension images fs'
  end.

End Captions.

(** ** [add_captions_to_meta], lines 179-211 *)

Section Metadata.

(** The metadata stored in the media files, and the two writers of
    [PinterestMedia]; a writer returns the store as it leaves it, also when
    it raises. *)
Variable M : Type.
Variable meta_write_comment : PinterestMedia → string → M → M * outcome unit.
Variable meta_write_subject : PinterestMedia → string → M → M * outcome unit.

(** The body of the [try] for one image. *)
Definition caption_meta (img : PinterestMedia) (m : M) : M * outcome unit :=
  if video_stream img then (m, Ok ())
  else match local_path img with
       | None => (m, Ok ())
       | Some lp =>
           if String.eqb (suffix lp) ".gif" then (m, Ok ())
           else
             let '(m1, r1) :=
               match origin img with
               | Some o => if negb (String.eqb o "") then meta_write_comment img o m
                           else (m, Ok ())
               | None => (m, Ok ())
               end in
             match r1 with
             | Raise e => (m1, Raise e)
             | Ok _ =>
                 match alt img with
                 | Some a => if negb (String.eqb a "") then meta_write_subject img a m1
                             else (m1, Ok ())
                 | None => (m1, Ok ())
                 end
             end
       end.

(** The loop: [except Exception] logs a warning and goes on with the next
    index; anything else leaves the function. *)
Fixpoint add_captions_to_meta (images : list PinterestMedia) (m : M)
  : M * list log_record * outcome unit :=
  match images with
  | [] => (m, [], Ok ())
  | img :: rest =>
      match caption_meta img m with
      | (m1, Ok _) => add_captions_to_meta rest m1
      | (m1, Raise e) =>
          if is_Exception e then
            let '(m2, log, r) := add_captions_to_meta rest m1 in
            (m2, Warning "Failed to add metadata" :: log, r)
          else (m1, [], Raise e)
      end
  end.

(** The store after every image had its turn, whether its writers failed
    or not, and the number of images whose writers failed. *)
Definition caption_all (images : list PinterestMedia) (m : M) : M :=
  fold_left (λ m' img, (caption_meta img m').1) images m.

Fixpoint meta_failures (images : list PinterestMedia) (m : M) : nat :=
  match images with
  | [] => O
  | img :: rest =>
      ((if is_Ok (caption_meta img m).2 then 0 else 1) +
       meta_failures rest (caption_meta img m).1)%nat
  end.

End Metadata.

(** ** [prune_images], lines 213-236 *)

(** Modelled from the spec: [PinterestMedia.prune_local] lives in
    [pinterest_dl/data_model/pinterest_media.py], which is not among the
    sources. The specification of the pruner says: an item passes iff both
    dimensions of its measured resolution are at least the corresponding
    minimum (0 means no constraint on that axis); items with no local file
    are dropped unless both minimums are 0. The measured resolution is the
    [resolution] of an item that has a local file. *)
Definition prune_local (img : PinterestMedia) (min_resolution : Z * Z) : bool :=
  match local_path img with
  | None => (min_resolution.1 =? 0) && (min_resolution.2 =? 0)
  | Some _ =>
      ((min_resolution.1 =? 0) || (min_resolution.1 <=? (resolution img).1)) &&
      ((min_resolution.2 =? 0) || (min_resolution.2 <=? (resolution img).2))
  end.

Fixpoint prune_images (images : list PinterestMedia) (min_resolution : Z * Z)
  : list PinterestMedia :=
  match images with
  | [] => []
  | img :: rest =>
      if prune_local img min_resolution
      then img :: prune_images rest min_resolution
      else prune_images rest min_resolution
  end.

End ScraperBase.

(* ===================================================================== *)
(** * gui.py: the browser crawl loop and the recursive pipeline          *)
(* ===================================================================== *)

Module Gui.

(** ** The browser session, as the crawl loop observes it

    Every call into the web driver either returns or raises. One [pass]
    holds what the driver answers during one iteration of the [while]
    loop. *)

Record image : Type := {
  get_alt : outcome (option string);     (* image.get_attribute("alt") *)
  get_src : outcome (option string)      (* image.get_attribute("src") *)
}.

Record div : Type := {
  find_images : outcome (list image);    (* div.find_elements(TAG_NAME, "img") *)
  find_href : outcome (option string);   (* div.find_element(TAG_NAME, "a").get_attribute("href") *)
  get_pin_id : outcome (option string)   (* div.get_attribute("data-test-pin-id") *)
}.

Record pass : Type := {
  find_divs : outcome (list div);        (* find_elements(CSS_SELECTOR, "div[data-test-id='pin']") *)
  page_down : outcome unit;              (* find_element(TAG_NAME, "body").send_keys(PAGE_DOWN) *)
  load_more : outcome unit               (* the "load more" button: find_element(...).click() *)
}.

Record browser : Type := {
  navigate : outcome unit;               (* self.webdriver.get(url) *)
  passes : nat → pass                    (* the answers during the n-th iteration *)
}.

(** The local variables of [patched_scrape]. *)
Record crawl : Type := {
  unique_results : gset string;
  imgs_data : list PinterestMedia;
  scroll_count : Z;
  no_new_scrolls : Z
}.

(** How the [while] loop was left. *)
Inductive exit : Type :=
  | LoopEnd                  (* scroll_count reached 800 *)
  | Stall                    (* break: no_new_scrolls >= 10 *)
  | SocketError              (* except (socket.error, socket.timeout) *)
  | Propagated (e : exn).    (* an exception no handler catches *)

Inductive step : Type :=
  | Next (c : crawl)
  | Exit (c : crawl) (why : exit).

Definition step_crawl (s : step) : crawl :=
  match s with
  | Next c => c
  | Exit c _ => c
  end.

Definition thumbnail : string := "/236x/".
Definition originals : string := "/originals/".

(** ** What the browser shows, for the statements about the crawl *)

(** The upgraded form of the thumbnail URLs among the images of a pass, in
    document order. *)
Fixpoint images_upgraded (images : list image) : list string :=
  match images with
  | [] => []
  | im :: rest =>
      match get_src im with
      | Ok (Some s) =>
          if contains thumbnail s
          then replace thumbnail originals s :: images_upgraded rest
          else images_upgraded rest
      | _ => images_upgraded rest
      end
  end.

Fixpoint divs_upgraded (divs : list div) : list string :=
  match divs with
  | [] => []
  | d :: rest =>
      match find_images d with
      | Ok images => images_upgraded images
      | Raise _ => []
      end ++ divs_upgraded rest
  end.

Definition pass_upgraded (p : pass) : list string :=
  match find_divs p with
  | Ok divs => divs_upgraded divs
  | Raise _ => []
  end.

(** The candidates on offer during the first [n] iterations, in the order
    of their discovery. *)
Fixpoint discovered (b : nat → pass) (n : nat) : list string :=
  match n with
  | O => []
  | S k => discovered b k ++ pass_upgraded (b k)
  end.

(** The images a pass shows. *)
Definition div_images (d : div) : list image :=
  match find_images d with
  | Ok images => images
  | Raise _ => []
  end.

Definition pass_images (p : pass) : list image :=
  match find_divs p with
  | Ok divs => divs ≫= div_images
  | Raise _ => []
  end.

(** No call of the pass raises [StaleElementReferenceException]. *)
Definition not_stale {A} (o : outcome A) : bool :=
  match o with
  | Raise e => negb (is_StaleElementReferenceException e)
  | Ok _ => true
  end.

Definition image_stale_free (im : image) : bool :=
  not_stale (get_alt im) && not_stale (get_src im).

Definition div_stale_free (d : div) : bool :=
  not_stale (find_images d) && not_stale (find_href d) && not_stale (get_pin_id d) &&
  match find_images d with
  | Ok images => forallb image_stale_free images
  | Raise _ => true
  end.

Definition pass_stale_free (p : pass) : bool :=
  not_stale (find_divs p) && not_stale (page_down p) &&
  match find_divs p with
  | Ok divs => forallb div_stale_free divs
  | Raise _ => true
  end.

Section Crawl.

(** [int(id)] on the text of the attribute; [None] stands for [ValueError]. *)
Variable int : string → option Z.
Variable num : Z.
Variable ensure_alt : bool.

Definition new_media (n : Z) (s : string) (a href : option string) : PinterestMedia :=
  {| id := IdInt n; src := s; alt := a; origin := href; resolution := (0, 0);
     video_stream := false; local_path := None |}.

(** Lines 354-373: the images of one container. The third component is the
    exception that interrupted the scan, if any. *)
Fixpoint scan_images (pin_id : string) (href : option string) (images : list image)
    (u : gset string) (l : list PinterestMedia)
  : gset string * list PinterestMedia * option exn :=
  match images with
  | [] => (u, l, None)
  | image :: rest =>
      match get_alt image with
      | Raise e => (u, l, Some e)
      | Ok a =>
          if ensure_alt && blank a then scan_images pin_id href rest u l
          else
            match get_src image with
            | Raise e => (u, l, Some e)
            | Ok None => scan_images pin_id href rest u l
            | Ok (Some s) =>
                if negb (String.eqb s "") && contains thumbnail s then
                  let s' := replace thumbnail originals s in
                  if bool_decide (s' ∈ u) then scan_images pin_id href rest u l
                  else
                    let u' := {[s']} ∪ u in
                    match int pin_id with
                    | None => (u', l, Some ValueError)
                    | Some n =>
                        let l' := l ++ [new_media n s' a href] in
                        if num <=? Z.of_nat (size u') then (u', l', None)
                        else scan_images pin_id href rest u' l'
                    end
                else scan_images pin_id href rest u l
            end
      end
  end.

(** Lines 346-373: the containers of one pass. *)
Fixpoint scan_divs (divs : list div) (u : gset string) (l : list PinterestMedia)
  : gset string * list PinterestMedia * option exn :=
  match divs with
  | [] => (u, l, None)
  | d :: rest =>
      if num <=? Z.of_nat (size u) then (u, l, None)
      else
        match find_images d with
        | Raise e => (u, l, Some e)
        | Ok images =>
            match find_href d with
            | Raise e => (u, l, Some e)
            | Ok href =>
                match get_pin_id d with
                | Raise e => (u, l, Some e)
                | Ok None => scan_divs rest u l
                | Ok (Some pin_id) =>
                    if String.eqb pin_id "" then scan_divs rest u l
                    else
                      match scan_images pin_id href images u l with
                      | (u', l', Some e) => (u', l', Some e)
                      | (u', l', None) => scan_divs rest u' l'
                      end
                end
            end
        end
  end.

(** The two [except] clauses around the loop body: a stale element starts
    the next iteration, a socket error ends the function with what was
    collected, anything else is raised to the caller. *)
Definition handle (e : exn) (c : crawl) : step :=
  if is_StaleElementReferenceException e then Next c
  else if is_OSError e then Exit c SocketError
  else Exit c (Propagated e).

(** Lines 343-404: one iteration of the [while] loop. *)
Definition loop_body (p : pass) (c : crawl) : step :=
  let current_unique := size (unique_results c) in
  match find_divs p with
  | Raise e => handle e c
  | Ok divs =>
      let '(u, l, r) := scan_divs divs (unique_results c) (imgs_data c) in
      let c1 := {| unique_results := u; imgs_data := l;
                   scroll_count := scroll_count c;
                   no_new_scrolls := no_new_scrolls c |} in
      match r with
      | Some e => handle e c1
      | None =>
          let new_in_scroll := Z.of_nat (size u) - Z.of_nat current_unique in
          let c2 := {| unique_results := u; imgs_data := l;
                       scroll_count := scroll_count c;
                       no_new_scrolls :=
                         if new_in_scroll =? 0 then no_new_scrolls c + 1 else 0 |} in
          if 10 <=? no_new_scrolls c2 then Exit c2 Stall
          else
            match page_down p with
            | Raise e => handle e c2
            | Ok _ =>
                let c3 := {| unique_results := u; imgs_data := l;
                             scroll_count := scroll_count c + 1;
                             no_new_scrolls := no_new_scrolls c2 |} in
                (* try: load_more.click() except: pass *)
                match load_more p with
                | Ok _ => Next c3
                | Raise _ => Next c3
                end
            end
      end
  end.

(** Line 342: [while scroll_count < 800]. [i] counts the iterations begun;
    the result holds the number of iterations run. *)
Fixpoint while_loop (fuel : nat) (b : nat → pass) (i : nat) (c : crawl)
  : option (crawl * nat * exit) :=
  match fuel with
  | O => None
  | S fuel' =>
      if scroll_count c <? 800 then
        match loop_body (b i) c with
        | Next c' => while_loop fuel' b (S i) c'
        | Exit c' why => Some (c', S i, why)
        end
      else Some (c, i, LoopEnd)
  end.

Definition crawl_init : crawl :=
  {| unique_results := ∅; imgs_data := []; scroll_count := 0; no_new_scrolls := 0 |}.

(** [patched_scrape], lines 333-412; [None] when [fuel] iterations do not
    end the loop. *)
Definition patched_scrape (fuel : nat) (b : browser)
  : option (outcome (list PinterestMedia)) :=
  match navigate b with
  | Raise e => if is_OSError e then Some (Ok []) else Some (Raise e)
  | Ok _ =>
      match while_loop fuel (passes b) 0 crawl_init with
      | None => None
      | Some (c, _, Propagated e) => Some (Raise e)
      | Some (c, _, _) => Some (Ok (imgs_data c))
      end
  end.

(** The invariant of the two collections of the crawl. *)
Definition collected (u : gset string) (l : list PinterestMedia) : Prop :=
  (∀ m, m ∈ l → src m ∈ u)
  ∧ NoDup (map src l)
  ∧ (length l ≤ size u)%nat
  ∧ Z.of_nat (size u) ≤ Z.max 0 num.

(** What a scan makes of the two collections: they grow, the invariant
    stays, and the new candidates are among those on offer, in order. *)
Definition scan_post (offer : list string) (u : gset string) (l : list PinterestMedia)
    (u' : gset string) (l' : list PinterestMedia) : Prop :=
  collected u' l' ∧ u ⊆ u' ∧
  ∃ new, l' = l ++ new ∧ map src new `sublist_of` offer.

(** The invariant of the [while] loop when the [i]-th iteration begins. *)
Definition crawl_inv (b : nat → pass) (i : nat) (c : crawl) : Prop :=
  collected (unique_results c) (imgs_data c)
  ∧ map src (imgs_data c) `sublist_of` discovered b i
  ∧ 0 ≤ no_new_scrolls c < 10
  ∧ 0 ≤ scroll_count c ≤ Z.of_nat i.

(** Scanning the pass from the set [u] finds nothing new. *)
Definition adds_nothing (p : pass) (u : gset string) : Prop :=
  match find_divs p with
  | Ok divs => ∀ l, (scan_divs divs u l).1.1 = u
  | Raise _ => True
  end.

End Crawl.

(** ** [scrape_images] *)

(** Lines 431-438: the candidates of the crawl, one per id, at most
    [limit] of them. *)
Fixpoint dedup_loop (limit : Z) (scraped_imgs : list PinterestMedia)
    (scraped_ids : gset pyid) (imgs : list PinterestMedia) (scraped : Z)
  : list PinterestMedia :=
  match scraped_imgs with
  | [] => imgs
  | img :: rest =>
      if bool_decide (id img ∈ scraped_ids) then
        dedup_loop limit rest scraped_ids imgs scraped
      else
        if limit <=? scraped + 1 then imgs ++ [img]
        else dedup_loop limit rest ({[id img]} ∪ scraped_ids) (imgs ++ [img]) (scraped + 1)
  end.

Definition dedup (limit : Z) (scraped_imgs : list PinterestMedia) : list PinterestMedia :=
  dedup_loop limit scraped_imgs ∅ [] 0.

(** Lines 441-442: the resolution filter. *)
Definition resolution_ok (res_x res_y : Z) (img : PinterestMedia) : bool :=
  (res_x <=? (resolution img).1) && (res_y <=? (resolution img).2).

Definition filter_resolution (res_x res_y : Z) (imgs : list PinterestMedia)
  : list PinterestMedia :=
  if (0 <? res_x) || (0 <? res_y)
  then List.filter (resolution_ok res_x res_y) imgs
  else imgs.

(** Lines 308-312: [re.search(r'/pin/(\d+)/', url)], on one-byte digits. *)
Definition is_digit (c : ascii) : bool :=
  let n := nat_of_ascii c in ((48 <=? n)%nat && (n <=? 57)%nat).

Fixpoint digits_then_slash (s : string) : option string :=
  match s with
  | String c s' =>
      if is_digit c then
        match s' with
        | String "/" _ => Some (String c EmptyString)
        | _ => match digits_then_slash s' with
               | Some d => Some (String c d)
               | None => None
               end
        end
      else None
  | EmptyString => None
  end.

Fixpoint drop_chars (n : nat) (s : string) : string :=
  match n, s with
  | S k, String _ s' => drop_chars k s'
  | _, _ => s
  end.

Fixpoint search_pin (s : string) : option string :=
  match (if String.prefix "/pin/" s then digits_then_slash (drop_chars 5 s) else None) with
  | Some d => Some d
  | None =>
      match s with
      | EmptyString => None
      | String _ s' => search_pin s'
      end
  end.

Definition original_pin_id (url : string) : option string :=
  if contains "/pin/" url then search_pin url else None.

(** Lines 473-475 *)
Definition new_project_name (img : PinterestMedia) : string :=
  "20251228_Test_" +:+ str (id img).

Definition new_project_dir (img : PinterestMedia) : string :=
  "downloads/" +:+ new_project_name img.

Definition new_url (img : PinterestMedia) : string :=
  "https://se.pinterest.com/pin/" +:+ str (id img) +:+
  "/visual-search/?cropSource=5&entrypoint=closeup_cta&rs=flashlight".

(** One invocation of the pipeline: its arguments, the items it handed to
    the downloader, and the invocations made from its recursion loop. *)
#[warnings="-register-all"]
Inductive run : Type :=
  | Run (url project_name : string) (recurse_factor : nat)
        (imgs : list PinterestMedia) (children : list run).

Definition run_url (r : run) : string := let 'Run u _ _ _ _ := r in u.
Definition run_project (r : run) : string := let 'Run _ p _ _ _ := r in p.
Definition run_depth (r : run) : nat := let 'Run _ _ d _ _ := r in d.
Definition run_imgs (r : run) : list PinterestMedia := let 'Run _ _ _ l _ := r in l.
Definition run_children (r : run) : list run := let 'Run _ _ _ _ c := r in c.

(** The number of pipeline invocations in a run. *)
Fixpoint invocations (r : run) : nat :=
  let 'Run _ _ _ _ children := r in
  S ((fix sum (l : list run) : nat :=
        match l with
        | [] => O
        | c :: l' => (invocations c + sum l')%nat
        end) children).

(** [1 + L + L^2 + ... + L^d] *)
Fixpoint geometric (L d : nat) : nat :=
  match d with
  | O => 1%nat
  | S d' => (1 + L * geometric L d')%nat
  end.

Section Pipeline.

(** The world outside the pipeline (browser, network, disk, session
    state) and the calls that reach it. *)
Variable W : Type.
(** [api_instance.scrape(url, batch_limit)] in browser mode *)
Variable api_scrape : W → string → Z → W * outcome (list PinterestMedia).
(** [use_cookies] is set and the cookie file is missing *)
Variable cookies_missing : W → bool.
(** [downloader.download_concurrent(...)], whose exceptions line 457 catches *)
Variable download : W → list PinterestMedia → string → W.
(** the append to [downloaded_urls.log] and the cache file *)
Variable log_urls : W → string → list string → W.
Variable write_cache : W → string → list PinterestMedia → W.
(** the API pipeline [scrape_and_download] of the [else] branch *)
Variable scrape_and_download : W → string → string → W.

(** Lines 470-493: the recursion loop, [call] being the recursive call. *)
Fixpoint recurse_loop (call : W → PinterestMedia → W * run * outcome unit)
    (seed : option string) (imgs : list PinterestMedia) (w : W)
  : W * list run * outcome unit :=
  match imgs with
  | [] => (w, [], Ok ())
  | img :: rest =>
      if bool_decide (Some (str (id img)) = seed) then recurse_loop call seed rest w
      else
        match call w img with
        | (w1, t, Raise e) => (w1, [t], Raise e)
        | (w1, t, Ok _) =>
            let '(w2, ts, r) := recurse_loop call seed rest w1 in
            (w2, t :: ts, r)
        end
  end.

(** [scrape_images], lines 275-529. [recurse_factor] is a natural number:
    the form offers 0..1000, and the test [recurse_factor > 0] is the match
    on a successor. *)
Fixpoint scrape_images (recurse_factor : nat) (w : W) (url project_name project_dir : string)
    (res_x res_y limit : Z) (use_browser : bool) : W * run * outcome unit :=
  let leaf := Run url project_name recurse_factor [] [] in
  if String.eqb url "" || String.eqb project_name "" then (w, leaf, Ok ())
  else if use_browser then
    if cookies_missing w then (w, leaf, Ok ())
    else
      match api_scrape w url limit with
      | (w1, Raise e) => (w1, leaf, Raise e)
      | (w1, Ok scraped_imgs) =>
          let imgs := filter_resolution res_x res_y (dedup limit scraped_imgs) in
          match imgs with
          | [] => (write_cache w1 project_name imgs, leaf, Ok ())
          | _ :: _ =>
              let w2 := download w1 imgs project_dir in
              let w3 := log_urls w2 project_dir (map src imgs) in
              match recurse_factor with
              | O =>
                  (write_cache w3 project_name imgs,
                   Run url project_name recurse_factor imgs [], Ok ())
              | S depth =>
                  let '(w4, children, r) :=
                    recurse_loop
                      (λ w' img,
                         scrape_images depth w' (new_url img) (new_project_name img)
                           (new_project_dir img) res_x res_y limit true)
                      (original_pin_id url) imgs w3 in
                  match r with
                  | Raise e => (w4, Run url project_name recurse_factor imgs children, Raise e)
                  | Ok _ =>
                      (write_cache w4 project_name imgs,
                       Run url project_name recurse_factor imgs children, Ok ())
                  end
              end
          end
      end
  else
    if cookies_missing w then (w, leaf, Ok ())
    else (scrape_and_download w url project_dir, leaf, Ok ()).

End Pipeline.

End Gui.

(* ===================================================================== *)
(** * Further definitions: the rest of the pipeline                      *)
(* ===================================================================== *)

Module More.

(** ** Candidates as the crawl builds them (gui.py, lines 363-369) *)

(** A candidate fresh from the crawl: not measured, not downloaded, no
    video stream, an integer id; under [ensure_alt] its alt text is not
    blank. *)
Definition fresh_candidate (ensure_alt : bool) (m : PinterestMedia) : Prop :=
  resolution m = (0, 0) ∧ local_path m = None ∧ video_stream m = false
  ∧ (∃ n, id m = IdInt n)
  ∧ (ensure_alt = true → blank (alt m) = false).

(** ** The id filter of [scrape_images], said in another way *)

(** The first item of every id, in order; [seen] holds the ids already
    taken. *)
Fixpoint first_by_id (l : list PinterestMedia) (seen : gset pyid) : list PinterestMedia :=
  match l with
  | [] => []
  | m :: rest =>
      if bool_decide (id m ∈ seen) then first_by_id rest seen
      else m :: first_by_id rest ({[id m]} ∪ seen)
  end.

(** ** Pin ids in URLs *)

Fixpoint all_digits (s : string) : bool :=
  match s with
  | EmptyString => true
  | String c s' => Gui.is_digit c && all_digits s'
  end.

(** ** scraper_base.py: [download_media] as a whole, lines 59-122 *)

(** [item.set_local_resolution(path)] sets the resolution of the item. *)
Definition set_resolution (item : PinterestMedia) (r : Z * Z) : PinterestMedia :=
  {| id := id item; src := src item; alt := alt item; origin := origin item;
     resolution := r; video_stream := video_stream item;
     local_path := local_path item |}.

(** What [set_local_resolution] does on a file: it measures it, or raises
    one of the two exceptions lines 114 and 116 handle, or another one. *)
Inductive measurement : Type :=
  | Measured (r : Z * Z)
  | FileNotFound
  | UnsupportedMediaType
  | MeasureError (e : exn).

(** The items of [to_download] are the objects of [media] that the filter
    did not skip, in their order, so what the loop of line 107 does to them
    shows in [media]: [done] holds the items that loop has updated. The
    items of [media] are taken to be distinct objects. *)
Fixpoint put_back (fs : filesystem) (loaded : gmap pyid entry)
    (media done : list PinterestMedia) : list PinterestMedia :=
  match media with
  | [] => []
  | item :: rest =>
      if ScraperBase.satisfied fs loaded item then
        ScraperBase.local_from_registry fs loaded item :: put_back fs loaded rest done
      else
        match done with
        | d :: done' => d :: put_back fs loaded rest done'
        | [] => item :: put_back fs loaded rest []
        end
  end.

(** Two items that differ at most in what [download_media] sets. *)
Definition same_pin (a b : PinterestMedia) : Prop :=
  id a = id b ∧ src a = src b ∧ alt a = alt b ∧ origin a = origin b
  ∧ video_stream a = video_stream b.

Section Download.

Variable json_loads : string → outcome (gmap pyid entry).
Variable json_dumps : gmap pyid entry → string.
(** [ensure_executable("ffmpeg")] returns; otherwise it raises
    [ExecutableNotFoundError] *)
Variable ffmpeg_found : bool.
(** [dl.download_concurrent(to_download, output_dir, download_streams)]:
    the files it leaves and the local paths it returns *)
Variable download_concurrent :
  filesystem → list PinterestMedia → string → bool → filesystem * outcome (list string).
(** [str(Path(path).stat().st_mtime)] of a path that exists *)
Variable mtime : filesystem → string → string.
(** [set_local_resolution] on a local file *)
Variable local_resolution : filesystem → string → measurement.

(** Lines 111-117. A resolution is a pair here, so the test
    [item.resolution is None] has no case of its own. *)
Definition measure_item (fs : filesystem) (item : PinterestMedia) (path : string)
  : outcome PinterestMedia :=
  if bool_decide (resolution item = (0, 0)) then
    match local_resolution fs path with
    | Measured r => Ok (set_resolution item r)
    | FileNotFound | UnsupportedMediaType => Ok item
    | MeasureError e => Raise e
    end
  else Ok item.

(** Lines 107-117: the loop over [zip(to_download, local_paths)]. It gives
    the registry and the items it went through, as it leaves them; [stat]
    raises on a path that does not exist. *)
Fixpoint record_loop (fs : filesystem) (pairs : list (PinterestMedia * string))
    (registry : gmap pyid entry) : outcome (gmap pyid entry * list PinterestMedia) :=
  match pairs with
  | [] => Ok (registry, [])
  | (item, path) :: rest =>
      if fs_exists fs path then
        let registry1 :=
          <[id item := {| entry_path := Some path;
                          entry_downloaded_at := Some (mtime fs path) |}]> registry in
        match measure_item fs (set_local_path item path) path with
        | Raise e => Raise e
        | Ok item1 =>
            match record_loop fs rest registry1 with
            | Raise e => Raise e
            | Ok (registry2, done) => Ok (registry2, item1 :: done)
            end
        end
      else Raise OSError
  end.

(** [download_media], lines 59-122: the file system as the call leaves it,
    the list it returns or the exception it raises, and its log records of
    level [WARNING] and above. *)
Definition download_media (fs : filesystem) (media : list PinterestMedia)
    (output_dir : string) (download_streams : bool)
  : filesystem * outcome (list PinterestMedia) * list log_record :=
  match ScraperBase.fs_mkdir fs output_dir with
  | Raise e => (fs, Raise e, [])
  | Ok fs0 =>
      match ScraperBase._load_downloaded_registry json_loads fs0 output_dir with
      | (Raise e, log) => (fs0, Raise e, log)
      | (Ok loaded, log) =>
          let p := ScraperBase.download_media_filter fs0 loaded media in
          match ScraperBase.to_download p with
          | [] => (fs0, Ok (ScraperBase.media_after p), log)
          | _ :: _ =>
              let log1 :=
                if download_streams && negb ffmpeg_found
                then log ++ [Warning "ffmpeg not found. Falling back to images."]
                else log in
              match download_concurrent fs0 (ScraperBase.to_download p) output_dir
                      (download_streams && ffmpeg_found) with
              | (fs1, Raise e) =>
                  (fs1, Raise e,
                   if is_Exception e then log1 ++ [Error "Download failed"] else log1)
              | (fs1, Ok local_paths) =>
                  match record_loop fs1 (zip (ScraperBase.to_download p) local_paths)
                          (ScraperBase.registry_after p) with
                  | Raise e => (fs1, Raise e, log1)
                  | Ok (registry, done) =>
                      match ScraperBase._save_downloaded_registry json_dumps fs1
                              output_dir registry with
                      | (Raise e, log2) => (fs1, Raise e, log1 ++ log2)
                      | (Ok fs2, log2) =>
                          (fs2, Ok (put_back fs0 loaded media done), log1 ++ log2)
                      end
                  end
              end
          end
      end
  end.

End Download.

(** ** gui.py: [search_images] and the dispatch of [main] *)

(** The keys of [st.session_state] that the pipeline sets. *)
Record session_state : Type := {
  state_error : option string;
  state_warning : option string;
  state_success : option string
}.

Definition no_messages : session_state :=
  {| state_error := None; state_warning := None; state_success := None |}.

Definition set_error (st : session_state) (msg : string) : session_state :=
  {| state_error := Some msg; state_warning := state_warning st;
     state_success := state_success st |}.

Definition set_warning (st : session_state) (msg : string) : session_state :=
  {| state_error := state_error st; state_warning := Some msg;
     state_success := state_success st |}.

Definition set_success (st : session_state) (msg : string) : session_state :=
  {| state_error := state_error st; state_warning := state_warning st;
     state_success := Some msg |}.

Section Search.

Variable W : Type.
(** lines 561-562: [cache_path.mkdir(parents=True, exist_ok=True)] *)
Variable mkdir_cache : W → W * outcome unit.
(** [project_dir.exists()] *)
Variable dir_exists : W → string → bool.
(** [use_cookies] is set and the cookie file is missing *)
Variable cookies_missing : W → bool.
(** lines 575-595: the API instance is built, takes the cookies when they
    are in use, and [search_and_download(query, output_dir, num, ...)] is
    called on it *)
Variable search_and_download : W → string → string → Z → W * outcome unit.
(** lines 600-608: the cache file is read and its URLs are appended to the log *)
Variable log_cached_urls : W → string → W * outcome unit.

(** [search_images], lines 542-608. *)
Definition search_images (w : W) (st : session_state)
    (query project_name project_dir : string) (limit : Z) (use_browser : bool)
  : W * session_state * outcome unit :=
  match mkdir_cache w with
  | (w0, Raise e) => (w0, st, Raise e)
  | (w0, Ok _) =>
      if String.eqb query "" || String.eqb project_name "" then
        (w0, set_error st "Please enter a query and Project Name!", Ok ())
      else
        let st1 := if dir_exists w0 project_dir
                   then set_warning st "Project already exists! Merge with existing data."
                   else st in
        if use_browser then
          (w0, set_error st1
                 "Browser scraping not supported for search mode. Please use API mode.",
           Ok ())
        else if cookies_missing w0 then (w0, set_error st1 "No cookies found!", Ok ())
        else
          match search_and_download w0 query project_dir limit with
          | (w1, Raise e) => (w1, st1, Raise e)
          | (w1, Ok _) =>
              let st2 := set_success st1 "Scrape Complete!" in
              match log_cached_urls w1 project_dir with
              | (w2, Raise e) => (w2, st2, Raise e)
              | (w2, Ok _) => (w2, st2, Ok ())
              end
          end
  end.

(** Lines 635-639 of [main]: a visual-search URL switches to the browser. *)
Definition effective_browser (query : string) (use_browser : bool) : bool :=
  if contains "visual-search" query then true else use_browser.

(** The search branch of the "Scrape" button of [main], lines 643-685: the
    messages of the last run are cleared, then [search_images] runs with
    the form's values; [project_dir] is [Path("downloads", project_name)]. *)
Definition main_search (w : W) (query project_name project_dir : string)
    (limit : Z) (use_browser : bool) : W * session_state * outcome unit :=
  search_images w no_messages query project_name project_dir limit
    (effective_browser query use_browser).

End Search.

Section Board.

Variable W : Type.
Variable api_scrape : W → string → Z → W * outcome (list PinterestMedia).
Variable cookies_missing : W → bool.
Variable download : W → list PinterestMedia → string → W.
Variable log_urls : W → string → list string → W.
Variable write_cache : W → string → list PinterestMedia → W.
Variable scrape_and_download : W → string → string → W.

(** The board branch of the "Scrape" button of [main], lines 643-666. *)
Definition main_board (recurse_factor : nat) (w : W)
    (query project_name project_dir : string) (res_x res_y limit : Z) (use_browser : bool)
  : W * Gui.run * outcome unit :=
  Gui.scrape_images W api_scrape cookies_missing download log_urls write_cache
    scrape_and_download recurse_factor w query project_name project_dir
    res_x res_y limit (effective_browser query use_browser).

End Board.

End More.

(* ===================================================================== *)
(** * Concrete inputs                                                    *)
(* ===================================================================== *)

Module Examples.

Definition media (n : Z) (s : string) (a : option string) (res : Z * Z)
    (lp : option string) : PinterestMedia :=
  {| id := IdInt n; src := s; alt := a; origin := Some "https://www.pinterest.com/pin/1/";
     resolution := res; video_stream := false; local_path := lp |}.

(** A downloaded photo of 640 by 480 pixels. *)
Definition photo : PinterestMedia :=
  media 7 "https://i.pinimg.com/originals/aa/bb/7.jpg" (Some "a cat") (640, 480)
    (Some "downloads/cats/7.jpg").

(** A download root whose registry file holds the single byte 0xFF, which
    no UTF-8 text contains. *)
Definition corrupt_registry_fs : filesystem :=
  {| files := {[ "downloads/downloaded.json" := String (ascii_of_nat 255) EmptyString ]};
     dirs := {[ "downloads"; "downloads/cats" ]};
     read_denied := ∅; write_denied := ∅ |}.

(** Metadata writers that record what they wrote and fail with [OSError]
    on the file [broken.jpg]. *)
Definition write_tag (tag : string) (img : PinterestMedia) (text : string)
    (m : list (string * string)) : list (string * string) * outcome unit :=
  match local_path img with
  | Some "downloads/cats/broken.jpg" => (m, Raise OSError)
  | _ => (m ++ [(tag, text)], Ok ())
  end.

Definition clip : PinterestMedia :=
  {| id := IdInt 8; src := "https://v.pinimg.com/8.m3u8"; alt := Some "a clip";
     origin := Some "https://www.pinterest.com/pin/8/"; resolution := (0, 0);
     video_stream := true; local_path := Some "downloads/cats/8.mp4" |}.

Definition animation : PinterestMedia :=
  media 9 "https://i.pinimg.com/originals/9.gif" (Some "a gif") (0, 0)
    (Some "downloads/cats/9.gif").

Definition broken : PinterestMedia :=
  media 10 "https://i.pinimg.com/originals/10.jpg" (Some "broken") (0, 0)
    (Some "downloads/cats/broken.jpg").

(** [int] on texts made of decimal digits. *)
Fixpoint digits_value (s : string) (acc : Z) : option Z :=
  match s with
  | EmptyString => Some acc
  | String c s' =>
      if Gui.is_digit c
      then digits_value s' (10 * acc + Z.of_nat (nat_of_ascii c) - 48)
      else None
  end.

Definition int_decimal (s : string) : option Z :=
  match s with
  | EmptyString => None
  | _ => digits_value s 0
  end.

Definition shown (s : string) : Gui.image :=
  {| Gui.get_alt := Ok (Some "a cat"); Gui.get_src := Ok (Some s) |}.

Definition pin (pin_id : string) (srcs : list string) : Gui.div :=
  {| Gui.find_images := Ok (map shown srcs);
     Gui.find_href := Ok (Some ("https://www.pinterest.com/pin/" +:+ pin_id +:+ "/"));
     Gui.get_pin_id := Ok (Some pin_id) |}.

(** A page that shows the same containers in every pass and has no
    "load more" button. *)
Definition page (divs : list Gui.div) : Gui.pass :=
  {| Gui.find_divs := Ok divs; Gui.page_down := Ok ();
     Gui.load_more := Raise NoSuchElementException |}.

Definition static_browser (divs : list Gui.div) : Gui.browser :=
  {| Gui.navigate := Ok (); Gui.passes := λ _, page divs |}.

(** One pin shown twice, by its thumbnail and by its full-size URL, and
    a second pin. *)
Definition two_pins : list Gui.div :=
  [ pin "11" ["https://i.pinimg.com/236x/aa/11.jpg"; "https://i.pinimg.com/originals/aa/11.jpg"];
    pin "12" ["https://i.pinimg.com/236x/bb/12.jpg"] ].

(** A session in which every look at the page meets a stale element. *)
Definition stale_pass : Gui.pass :=
  {| Gui.find_divs := Raise StaleElementReferenceException; Gui.page_down := Ok ();
     Gui.load_more := Ok () |}.

Definition stale_browser : Gui.browser :=
  {| Gui.navigate := Ok (); Gui.passes := λ _, stale_pass |}.

(** A session whose first "load more" attempt fails with a socket error,
    and which shows a second pin from the second pass on. *)
Definition flaky_browser : Gui.browser :=
  {| Gui.navigate := Ok ();
     Gui.passes := λ i,
       match i with
       | O => {| Gui.find_divs := Ok [pin "11" ["https://i.pinimg.com/236x/aa/11.jpg"]];
                 Gui.page_down := Ok (); Gui.load_more := Raise OSError |}
       | S _ => page two_pins
       end |}.

(** What the crawl makes of [two_pins]. *)
Definition two_candidates : list PinterestMedia :=
  [ Gui.new_media 11 "https://i.pinimg.com/originals/aa/11.jpg" (Some "a cat")
      (Some "https://www.pinterest.com/pin/11/");
    Gui.new_media 12 "https://i.pinimg.com/originals/bb/12.jpg" (Some "a cat")
      (Some "https://www.pinterest.com/pin/12/") ].

(** A world in which the pin page of pin 11 shows [two_candidates] and
    every other page shows nothing; downloads and files are not tracked. *)
Definition pin_page : string := "https://www.pinterest.com/pin/11/".

Definition api_scrape (w : unit) (url : string) (limit : Z)
  : unit * outcome (list PinterestMedia) :=
  (w, Ok (if String.eqb url pin_page then two_candidates else [])).

Definition scrape_pin_page (depth : nat) : unit * Gui.run * outcome unit :=
  Gui.scrape_images unit api_scrape (λ _, false) (λ w _ _, w) (λ w _ _, w) (λ w _ _, w)
    (λ w _ _, w) depth () pin_page "cats" "downloads/cats" 0 0 5 true.

(** The registry of a download root that holds pin 7, before and after the
    file is deleted by hand, and the same registry as JSON gives it back,
    with a string key. *)
Definition candidate7 : PinterestMedia :=
  media 7 "https://i.pinimg.com/originals/aa/bb/7.jpg" (Some "a cat") (0, 0) None.

Definition entry7 : entry :=
  {| entry_path := Some "downloads/cats/7.jpg"; entry_downloaded_at := Some "1762200000.0" |}.

Definition registry7 : gmap pyid entry := {[ IdInt 7 := entry7 ]}.

Definition registry7_loaded : gmap pyid entry := {[ IdStr "7" := entry7 ]}.

Definition fs_with_photo : filesystem :=
  {| files := {[ "downloads/cats/7.jpg" := "JFIF" ]};
     dirs := {[ "downloads"; "downloads/cats" ]};
     read_denied := ∅; write_denied := ∅ |}.

Definition fs_without_photo : filesystem :=
  {| files := ∅; dirs := {[ "downloads"; "downloads/cats" ]};
     read_denied := ∅; write_denied := ∅ |}.

(** A caption directory that already holds the sidecar of pin 7, and a
    downloaded pin without alt text. *)
Definition silent : PinterestMedia :=
  media 13 "https://i.pinimg.com/originals/13.jpg" None (0, 0) (Some "downloads/cats/13.jpg").

Definition fs_captions : filesystem :=
  {| files := {[ "captions/7.txt" := "an older caption" ]};
     dirs := {[ "captions" ]}; read_denied := ∅; write_denied := ∅ |}.

(** The crawl of [two_pins] with target 1, after its first pass. *)
Definition target_reached : Gui.crawl :=
  {| Gui.unique_results := {[ "https://i.pinimg.com/originals/aa/11.jpg" ]};
     Gui.imgs_data := take 1 two_candidates;
     Gui.scroll_count := 1; Gui.no_new_scrolls := 0 |}.

(** A codec for registries that holds at most pin 7: it prints the path of
    pin 7, or nothing, and reads a non-empty text back as that path under
    the string key. *)
Definition dumps7 (registry : gmap pyid entry) : string :=
  match registry !! IdInt 7 with
  | Some e => default "" (entry_path e)
  | None => ""
  end.

Definition loads7 (text : string) : outcome (gmap pyid entry) :=
  if String.eqb text "" then Raise JSONDecodeError
  else Ok {[ IdStr "7" := {| entry_path := Some text; entry_downloaded_at := None |} ]}.

(** A world that only keeps a journal of the calls that reach it, and a
    visual-search page. *)
Definition journal_mkdir (w : list string) : list string * outcome unit :=
  (w ++ ["mkdir downloads/_cache"], Ok ()).

Definition journal_search (w : list string) (query project_dir : string) (limit : Z)
  : list string * outcome unit :=
  (w ++ ["search " +:+ query], Ok ()).

Definition journal_log (w : list string) (project_dir : string)
  : list string * outcome unit :=
  (w ++ ["log " +:+ project_dir], Ok ()).

Definition visual_search_page : string :=
  "https://se.pinterest.com/pin/11/visual-search/?cropSource=5".

(** A downloader that stores every item under its id in the output
    directory, one that returns the paths without storing anything, a clock
    and a ruler. *)
Definition fetched_path (output_dir : string) (m : PinterestMedia) : string :=
  joinpath output_dir (str (id m) +:+ ".jpg").

Definition fetch (fs : filesystem) (l : list PinterestMedia) (output_dir : string)
    (download_streams : bool) : filesystem * outcome (list string) :=
  ({| files := foldr (λ m, insert (fetched_path output_dir m) (src m)) (files fs) l;
      dirs := dirs fs; read_denied := read_denied fs; write_denied := write_denied fs |},
   Ok (map (fetched_path output_dir) l)).

Definition fetch_nothing (fs : filesystem) (l : list PinterestMedia) (output_dir : string)
    (download_streams : bool) : filesystem * outcome (list string) :=
  (fs, Ok (map (fetched_path output_dir) l)).

Definition noon (fs : filesystem) (path : string) : string := "1762200000.0".

Definition ruler (fs : filesystem) (path : string) : More.measurement :=
  More.Measured (640, 480).

(** A first download of pin 7 into [downloads/cats], with the codec
    [loads7]/[dumps7]: the output directory after [mkdir], after the
    download, and the call as a whole; the same call with the downloader
    that stores nothing. *)
Definition cats_made : filesystem :=
  {| files := ∅; dirs := {[ "downloads/cats" ]} ∪ {[ "downloads"; "downloads/cats" ]};
     read_denied := ∅; write_denied := ∅ |}.

Definition cats_fetched : filesystem :=
  (fetch cats_made [candidate7] "downloads/cats" false).1.

Definition download_cats
  : filesystem * outcome (list PinterestMedia) * list log_record :=
  More.download_media loads7 dumps7 true fetch noon ruler fs_without_photo
    [candidate7] "downloads/cats" false.

Definition download_cats_result : list PinterestMedia :=
  match download_cats.1.2 with
  | Ok result => result
  | Raise _ => []
  end.

Definition download_cats_nothing
  : filesystem * outcome (list PinterestMedia) * list log_record :=
  More.download_media loads7 dumps7 true fetch_nothing noon ruler fs_without_photo
    [candidate7] "downloads/cats" false.

(** A download root whose registry file holds pin 7 under its string key,
    the registry as it is loaded, and the pin as the API gives it, with a
    string id. *)
Definition fs_registered : filesystem :=
  {| files := {[ "downloads/cats/7.jpg" := "JFIF";
                 "downloads/downloaded.json" := "downloads/cats/7.jpg" ]};
     dirs := {[ "downloads"; "downloads/cats" ]};
     read_denied := ∅; write_denied := ∅ |}.

Definition fs_registered_made : filesystem :=
  {| files := files fs_registered;
     dirs := {[ "downloads/cats" ]} ∪ dirs fs_registered;
     read_denied := ∅; write_denied := ∅ |}.

Definition registry7_read : gmap pyid entry :=
  {[ IdStr "7" := {| entry_path := Some "downloads/cats/7.jpg";
                     entry_downloaded_at := None |} ]}.

Definition candidate7_api : PinterestMedia :=
  {| id := IdStr "7"; src := "https://i.pinimg.com/originals/aa/bb/7.jpg";
     alt := Some "a cat"; origin := None; resolution := (0, 0);
     video_stream := false; local_path := None |}.

End Examples.

(* ===================================================================== *)
(** * Properties                                                         *)
(* ===================================================================== *)

Import ScraperBase Gui.

(** ** The registry filter of [download_media] *)

Section FilterLoop.
Context (fs : filesystem) (loaded : gmap pyid entry).

Lemma repaired_refl : repaired fs loaded loaded.
Proof. intros k. by left. Qed.

Lemma repaired_satisfied registry item :
  repaired fs loaded registry → satisfied fs registry item = satisfied fs loaded item.
Proof.
  intros Hr. unfold satisfied.
  destruct (Hr (id item)) as [-> | [-> (e & -> & He)]]; [done | by rewrite He].
Qed.

Lemma repaired_delete registry item e :
  repaired fs loaded registry → registry !! id item = Some e →
  fs_exists fs (registered_path e) = false →
  repaired fs loaded (delete (id item) registry).
Proof.
  intros Hr He Hx k. destruct (decide (k = id item)) as [-> | Hne].
  - right. rewrite lookup_delete_eq. split; [done |].
    destruct (Hr (id item)) as [Heq | [Hn _]]; [| congruence].
    exists e. by rewrite <- Heq.
  - rewrite lookup_delete_ne by done. apply Hr.
Qed.

Lemma filter_loop_to_download media registry to_dl :
  repaired fs loaded registry →
  to_download (filter_loop fs media registry to_dl) =
  to_dl ++ List.filter (λ item, negb (satisfied fs loaded item)) media.
Proof.
  revert registry to_dl. induction media as [| item rest IH]; intros registry to_dl Hr; simpl.
  - by rewrite app_nil_r.
  - rewrite <- (repaired_satisfied registry item Hr). unfold satisfied.
    destruct (registry !! id item) as [e |] eqn:He; simpl.
    + destruct (fs_exists fs (registered_path e)) eqn:Hx; simpl.
      * by apply IH.
      * rewrite IH by eauto using repaired_delete. by rewrite <- app_assoc.
    + rewrite IH by done. by rewrite <- app_assoc.
Qed.

Lemma filter_loop_media_after media registry to_dl :
  repaired fs loaded registry →
  media_after (filter_loop fs media registry to_dl) = map (local_from_registry fs loaded) media.
Proof.
  revert registry to_dl. induction media as [| item rest IH]; intros registry to_dl Hr; simpl.
  - done.
  - unfold local_from_registry at 1.
    destruct (Hr (id item)) as [Heq | [Hn (e & He & Hx)]].
    + rewrite Heq. destruct (loaded !! id item) as [e |] eqn:He; simpl.
      * destruct (fs_exists fs (registered_path e)) eqn:Hx; simpl; f_equal.
        -- by apply IH.
        -- apply IH. eapply repaired_delete; eauto.
      * f_equal. by apply IH.
    + rewrite Hn, He, Hx. simpl. f_equal. by apply IH.
Qed.

End FilterLoop.

Lemma filter_loop_only_deletes fs media registry to_dl k :
  registry !! k = None →
  registry_after (filter_loop fs media registry to_dl) !! k = None.
Proof.
  revert registry to_dl. induction media as [| item rest IH]; intros registry to_dl Hk; simpl.
  - done.
  - destruct (registry !! id item) as [e |] eqn:He; simpl.
    + destruct (fs_exists fs (registered_path e)); simpl.
      * by apply IH.
      * apply IH. rewrite lookup_delete. case_decide; done.
    + by apply IH.
Qed.

Lemma stale_lookup fs registry registry' item :
  registry' !! id item = registry !! id item →
  stale fs registry' item = stale fs registry item.
Proof. unfold stale. by intros ->. Qed.

Lemma filter_loop_deletes_stale fs media registry to_dl item :
  item ∈ media → stale fs registry item = true →
  registry_after (filter_loop fs media registry to_dl) !! id item = None.
Proof.
  revert registry to_dl. induction media as [| item0 rest IH]; intros registry to_dl Hin Hst.
  - by apply elem_of_nil in Hin.
  - simpl. destruct (decide (id item0 = id item)) as [Heq | Hne].
    + unfold stale in Hst. rewrite Heq.
      destruct (registry !! id item) as [e |] eqn:He; [| done].
      destruct (fs_exists fs (registered_path e)); [done |]. simpl.
      apply filter_loop_only_deletes. by rewrite lookup_delete_eq.
    + apply elem_of_cons in Hin as [-> | Hin]; [done |].
      destruct (registry !! id item0) as [e |] eqn:He; simpl.
      * destruct (fs_exists fs (registered_path e)); simpl.
        -- by apply IH.
        -- apply IH; [done |]. rewrite <- Hst. apply stale_lookup.
           by rewrite lookup_delete_ne.
      * by apply IH.
Qed.

Lemma filter_loop_keeps fs media registry to_dl k :
  (∀ item, item ∈ media → id item = k → stale fs registry item = false) →
  registry_after (filter_loop fs media registry to_dl) !! k = registry !! k.
Proof.
  revert registry to_dl. induction media as [| item0 rest IH]; intros registry to_dl Hk.
  - done.
  - simpl.
    assert (Hrest : ∀ item, item ∈ rest → id item = k → stale fs registry item = false).
    { intros item Hin. apply Hk. by right. }
    destruct (registry !! id item0) as [e |] eqn:He; simpl.
    + destruct (fs_exists fs (registered_path e)) eqn:Hx; simpl.
      * by apply IH.
      * assert (id item0 ≠ k) as Hne.
        { intros Heq. specialize (Hk item0 (list_elem_of_here _ _) Heq).
          unfold stale in Hk. by rewrite He, Hx in Hk. }
        rewrite IH.
        -- by rewrite lookup_delete_ne.
        -- intros item Hin Hid. rewrite <- (Hrest item Hin Hid).
           apply stale_lookup. rewrite lookup_delete_ne; [done | congruence].
    + by apply IH.
Qed.

(** C1 *)
Theorem C1_registry_filter (fs : filesystem) (registry : gmap pyid entry)
    (media : list PinterestMedia) :
  let r := download_media_filter fs registry media in
  to_download r = List.filter (λ item, negb (satisfied fs registry item)) media
  ∧ media_after r = map (local_from_registry fs registry) media
  ∧ (∀ item, item ∈ media →
       (item ∉ to_download r ↔
        ∃ e, registry !! id item = Some e ∧ fs_exists fs (registered_path e) = true))
  ∧ (∀ item e, item ∈ media → registry !! id item = Some e →
       fs_exists fs (registered_path e) = true →
       local_from_registry fs registry item = set_local_path item (registered_path e))
  ∧ (∀ item e, item ∈ media → registry !! id item = Some e →
       fs_exists fs (registered_path e) = false →
       registry_after r !! id item = None ∧ item ∈ to_download r)
  ∧ (∀ k, (∀ item, item ∈ media → id item = k → stale fs registry item = false) →
       registry_after r !! k = registry !! k).
Proof.
  intros r.
  assert (Htd : to_download r = List.filter (λ item, negb (satisfied fs registry item)) media).
  { unfold r, download_media_filter.
    by rewrite (filter_loop_to_download fs registry) by apply repaired_refl. }
  assert (Hin : ∀ item, item ∈ to_download r ↔ item ∈ media ∧ satisfied fs registry item = false).
  { intros item. rewrite Htd, !list_elem_of_In, filter_In, negb_true_iff. done. }
  split; [done |]. split.
  { apply filter_loop_media_after, repaired_refl. }
  split.
  { intros item Hm. rewrite Hin. unfold satisfied.
    destruct (registry !! id item) as [e |].
    - destruct (fs_exists fs (registered_path e)) eqn:Hx.
      + split; [eauto | intros _ [_ ?]; done].
      + split; [intros Hn; destruct Hn; done | intros (e' & [= <-] & ?); congruence].
    - split; [intros Hn; destruct Hn; done | intros (e' & ? & ?); done]. }
  split.
  { intros item e _ He Hx. unfold local_from_registry. by rewrite He, Hx. }
  split.
  { intros item e Hm He Hx. split.
    - apply filter_loop_deletes_stale; [done |]. unfold stale. by rewrite He, Hx.
    - apply Hin. split; [done |]. unfold satisfied. by rewrite He. }
  intros k Hk. by apply filter_loop_keeps.
Qed.

(** One download root, three runs: the file is there; the file was deleted
    by hand; the registry came back from JSON with a string key, which the
    integer id of a crawled item does not match. *)
Example filter_file_present :
  let r := download_media_filter Examples.fs_with_photo Examples.registry7
             [Examples.candidate7] in
  to_download r = []
  ∧ media_after r = [set_local_path Examples.candidate7 "downloads/cats/7.jpg"]
  ∧ registry_after r !! IdInt 7 = Some Examples.entry7.
Proof. vm_compute. done. Qed.

Example filter_file_deleted :
  let r := download_media_filter Examples.fs_without_photo Examples.registry7
             [Examples.candidate7] in
  to_download r = [Examples.candidate7]
  ∧ media_after r = [Examples.candidate7]
  ∧ registry_after r !! IdInt 7 = None.
Proof. vm_compute. done. Qed.

Example filter_string_key :
  let r := download_media_filter Examples.fs_with_photo Examples.registry7_loaded
             [Examples.candidate7] in
  to_download r = [Examples.candidate7]
  ∧ registry_after r !! IdStr "7" = Some Examples.entry7.
Proof. vm_compute. done. Qed.

(** ** The resolution pruner *)

Lemma prune_images_filter images min_resolution :
  prune_images images min_resolution =
  List.filter (λ img, prune_local img min_resolution) images.
Proof.
  induction images as [| img rest IH]; simpl; [done |].
  destruct (prune_local img min_resolution); by rewrite IH.
Qed.

Lemma prune_local_measured img min_x min_y :
  is_Some (local_path img) → 0 ≤ (resolution img).1 → 0 ≤ (resolution img).2 →
  prune_local img (min_x, min_y) = true ↔
  min_x ≤ (resolution img).1 ∧ min_y ≤ (resolution img).2.
Proof.
  intros [p Hp] Hw Hh. unfold prune_local. rewrite Hp. simpl.
  rewrite andb_true_iff, !orb_true_iff, !Z.eqb_eq, !Z.leb_le. lia.
Qed.

Lemma filter_resolution_elem res_x res_y imgs img :
  0 ≤ (resolution img).1 → 0 ≤ (resolution img).2 →
  img ∈ filter_resolution res_x res_y imgs ↔
  img ∈ imgs ∧ res_x ≤ (resolution img).1 ∧ res_y ≤ (resolution img).2.
Proof.
  intros Hw Hh. unfold filter_resolution.
  destruct ((0 <? res_x) || (0 <? res_y)) eqn:Hany.
  - rewrite !list_elem_of_In, filter_In. unfold resolution_ok.
    rewrite andb_true_iff, !Z.leb_le. done.
  - apply orb_false_iff in Hany as [Hx Hy].
    apply Z.ltb_ge in Hx. apply Z.ltb_ge in Hy.
    split; [intros Hin; split; [done | lia] | by intros [Hin _]].
Qed.

(** C5. For an item with a measured resolution, [prune_images] keeps it iff
    both dimensions are at least the minimum; an item whose resolution equals
    the minimum is kept, an item one pixel under in either dimension is
    dropped, a (0,0) minimum keeps it; the inline filter of [scrape_images]
    decides in the same way on the item's resolution. *)
Theorem C5_resolution_pruner (images : list PinterestMedia) (img : PinterestMedia)
    (min_x min_y : Z) :
  is_Some (local_path img) → 0 ≤ (resolution img).1 → 0 ≤ (resolution img).2 →
  (img ∈ prune_images images (min_x, min_y) ↔
     img ∈ images ∧ min_x ≤ (resolution img).1 ∧ min_y ≤ (resolution img).2)
  ∧ (resolution img = (min_x, min_y) → prune_local img (min_x, min_y) = true)
  ∧ ((resolution img).1 = min_x - 1 ∨ (resolution img).2 = min_y - 1 →
       prune_local img (min_x, min_y) = false)
  ∧ prune_local img (0, 0) = true
  ∧ (img ∈ filter_resolution min_x min_y images ↔
       img ∈ images ∧ min_x ≤ (resolution img).1 ∧ min_y ≤ (resolution img).2).
Proof.
  intros Hp Hw Hh.
  pose proof (prune_local_measured img min_x min_y Hp Hw Hh) as Hiff.
  split; [| split; [| split; [| split]]].
  - rewrite prune_images_filter, !list_elem_of_In, filter_In, Hiff. done.
  - intros Heq. apply Hiff. rewrite Heq. simpl. lia.
  - intros Hunder. apply not_true_is_false. rewrite Hiff. lia.
  - apply (prune_local_measured img 0 0 Hp Hw Hh). lia.
  - by apply filter_resolution_elem.
Qed.

Lemma C5_resolution_pruner_witness :
  (Examples.photo ∈ prune_images [Examples.photo] (640, 480) ↔
     Examples.photo ∈ [Examples.photo] ∧
     640 ≤ (resolution Examples.photo).1 ∧ 480 ≤ (resolution Examples.photo).2)
  ∧ (resolution Examples.photo = (640, 480) → prune_local Examples.photo (640, 480) = true)
  ∧ ((resolution Examples.photo).1 = 640 - 1 ∨ (resolution Examples.photo).2 = 480 - 1 →
       prune_local Examples.photo (640, 480) = false)
  ∧ prune_local Examples.photo (0, 0) = true
  ∧ (Examples.photo ∈ filter_resolution 640 480 [Examples.photo] ↔
       Examples.photo ∈ [Examples.photo] ∧
       640 ≤ (resolution Examples.photo).1 ∧ 480 ≤ (resolution Examples.photo).2).
Proof.
  apply (C5_resolution_pruner [Examples.photo] Examples.photo 640 480).
  - simpl. eauto.
  - simpl. lia.
  - simpl. lia.
Defined.

(** ** The registry file *)

Section RegistryIO.
Context (json_loads : string → outcome (gmap pyid entry))
        (json_dumps : gmap pyid entry → string).

Lemma load_missing fs output_dir :
  fs_exists fs (registry_path output_dir) = false →
  _load_downloaded_registry json_loads fs output_dir = (Ok ∅, []).
Proof. intros H. unfold _load_downloaded_registry. by rewrite H. Qed.

Lemma load_handled fs output_dir bytes e :
  fs_read fs (registry_path output_dir) = Ok bytes →
  utf8_valid bytes = true → json_loads bytes = Raise e →
  is_JSONDecodeError e || is_OSError e = true →
  (_load_downloaded_registry json_loads fs output_dir).1 = Ok ∅.
Proof.
  intros Hr Hu Hj He. unfold _load_downloaded_registry, json_load.
  destruct (fs_exists fs (registry_path output_dir)); [| done].
  by rewrite Hr, Hu, Hj, He.
Qed.

Lemma load_unreadable fs output_dir e :
  fs_read fs (registry_path output_dir) = Raise e →
  (_load_downloaded_registry json_loads fs output_dir).1 = Ok ∅.
Proof.
  intros Hr. unfold _load_downloaded_registry.
  destruct (fs_exists fs (registry_path output_dir)); [| done].
  rewrite Hr. unfold fs_read in Hr.
  destruct (bool_decide _); [by injection Hr as <- |].
  destruct (files fs !! _); [done | by injection Hr as <-].
Qed.

Lemma load_undecodable fs output_dir bytes :
  fs_exists fs (registry_path output_dir) = true →
  fs_read fs (registry_path output_dir) = Ok bytes →
  utf8_valid bytes = false →
  _load_downloaded_registry json_loads fs output_dir = (Raise UnicodeDecodeError, []).
Proof.
  intros Hx Hr Hu. unfold _load_downloaded_registry, json_load.
  by rewrite Hx, Hr, Hu.
Qed.

Lemma save_never_raises fs output_dir registry :
  ∃ fs' log, _save_downloaded_registry json_dumps fs output_dir registry = (Ok fs', log)
             ∧ (fs' = fs → log ≠ [] ∨ fs_write fs (registry_path output_dir) (json_dumps registry) = Ok fs).
Proof.
  unfold _save_downloaded_registry.
  destruct (fs_write fs _ _) as [fs' | e] eqn:Hw.
  - exists fs', []. split; [done |]. intros ->. by right.
  - unfold fs_write in Hw. destruct (_ || _); [| done]. injection Hw as <-.
    simpl. eexists _, _. split; [done |]. intros _. by left.
Qed.

(** C6. A registry file that is not valid UTF-8 makes
    [_load_downloaded_registry] raise [UnicodeDecodeError] to its caller: the
    [except] clause names [JSONDecodeError] and [IOError] only. *)
Theorem C6_load_raises_on_undecodable_file :
  _load_downloaded_registry json_loads Examples.corrupt_registry_fs "downloads/cats"
  = (Raise UnicodeDecodeError, []).
Proof. by apply (load_undecodable _ _ (String (ascii_of_nat 255) EmptyString)). Qed.

End RegistryIO.

(** ** Sidecar caption files *)

Lemma fs_write_files fs p content fs' :
  fs_write fs p content = Ok fs' →
  files fs' = <[p := content]> (files fs) ∧ dirs fs' = dirs fs.
Proof.
  unfold fs_write. destruct (_ || _); [done |]. by intros [= <-].
Qed.

Lemma fs_exists_false_files fs p :
  fs_exists fs p = false → files fs !! p = None.
Proof.
  unfold fs_exists. intros H. apply orb_false_iff in H as [H _].
  apply bool_decide_eq_false in H. by apply eq_None_not_Some.
Qed.

Lemma fs_exists_files fs p c :
  files fs !! p = Some c → fs_exists fs p = true.
Proof.
  intros H. unfold fs_exists. apply orb_true_iff. left.
  apply bool_decide_eq_true. eauto.
Qed.

Section CaptionLoop.
Context (to_json : PinterestMedia → string) (output_dir extension : string).

#[local] Abbreviation loop := (caption_loop to_json output_dir extension).
#[local] Abbreviation sidecar_of := (ScraperBase.sidecar_of to_json extension).

Lemma caption_loop_keeps images fs p c :
  files fs !! p = Some c → files (loop images fs).1 !! p = Some c.
Proof.
  revert fs. induction images as [| img rest IH]; intros fs Hp; [done |].
  simpl. destruct (local_path img) as [lp |]; [| by apply IH].
  destruct (fs_exists fs _) eqn:Hx; [by apply IH |].
  apply fs_exists_false_files in Hx.
  assert (∀ content fs', fs_write fs (caption_path output_dir extension lp) content = Ok fs' →
            files fs' !! p = Some c) as Hw.
  { intros content fs' [-> _]%fs_write_files. rewrite lookup_insert_ne; [done | congruence]. }
  repeat (case_match; simpl; eauto).
Qed.

Lemma caption_loop_dirs images fs :
  dirs (loop images fs).1 = dirs fs.
Proof.
  revert fs. induction images as [| img rest IH]; intros fs; [done |].
  simpl. repeat (case_match; simpl; try done; try apply IH).
  all: rewrite IH; by eapply fs_write_files.
Qed.

Lemma caption_loop_exists images fs p :
  fs_exists fs p = true → fs_exists (loop images fs).1 p = true.
Proof.
  unfold fs_exists. rewrite !orb_true_iff, !bool_decide_eq_true, caption_loop_dirs.
  intros [[c Hc] | Hd]; [left | by right].
  exists c. by apply caption_loop_keeps.
Qed.

Lemma caption_loop_provenance images fs p c :
  files fs !! p = None → files (loop images fs).1 !! p = Some c →
  ∃ img lp, img ∈ images ∧ local_path img = Some lp ∧
            p = caption_path output_dir extension lp ∧ sidecar_of img c.
Proof.
  revert fs. induction images as [| img rest IH]; intros fs Hn Hs; [simpl in Hs; congruence |].
  assert (Hrest : ∀ fs0, files fs0 !! p = None →
            files (loop rest fs0).1 !! p = Some c →
            ∃ img0 lp, img0 ∈ img :: rest ∧ local_path img0 = Some lp ∧
                       p = caption_path output_dir extension lp ∧ sidecar_of img0 c).
  { intros fs0 H0 H1. destruct (IH fs0 H0 H1) as (i & lp & Hi & ?). exists i, lp. split; [by right | done]. }
  assert (Hwrite : ∀ lp content fs', local_path img = Some lp →
            sidecar_of img content →
            fs_write fs (caption_path output_dir extension lp) content = Ok fs' →
            files (loop rest fs').1 !! p = Some c →
            ∃ img0 lp, img0 ∈ img :: rest ∧ local_path img0 = Some lp ∧
                       p = caption_path output_dir extension lp ∧ sidecar_of img0 c).
  { intros lp content fs' Hlp Hside [Hf _]%fs_write_files Hfin.
    destruct (decide (p = caption_path output_dir extension lp)) as [-> | Hne].
    - assert (files fs' !! caption_path output_dir extension lp = Some content) as Hnow
        by (rewrite Hf; apply lookup_insert_eq).
      rewrite (caption_loop_keeps rest fs' _ _ Hnow) in Hfin. injection Hfin as <-.
      exists img, lp. split; [by left | done].
    - apply (Hrest fs'); [| done]. rewrite Hf, lookup_insert_ne; [done | congruence]. }
  simpl in Hs. destruct (local_path img) as [lp |] eqn:Hlp; [| by apply (Hrest fs)].
  destruct (fs_exists fs _) eqn:Hx; [by apply (Hrest fs) |].
  destruct (String.eqb extension "json") eqn:Hj.
  { apply String.eqb_eq in Hj.
    destruct (fs_write fs _ (to_json img)) as [fs' |] eqn:Hw; simpl in Hs; [| congruence].
    eapply Hwrite; eauto. by left. }
  destruct (String.eqb extension "txt") eqn:Ht; [| simpl in Hs; congruence].
  apply String.eqb_eq in Ht.
  destruct (alt img) as [a |] eqn:Ha; [| by apply (Hrest fs)].
  destruct (String.eqb a "") eqn:Hea; simpl in Hs; [by apply (Hrest fs) |].
  apply String.eqb_neq in Hea.
  destruct (fs_write fs _ a) as [fs' |] eqn:Hw; simpl in Hs; [| congruence].
  eapply Hwrite; eauto. right. by rewrite Ha.
Qed.

Lemma caption_loop_covers images fs img lp :
  (loop images fs).2 = Ok () →
  img ∈ images → local_path img = Some lp →
  extension = "json" ∨ truthy (alt img) = true →
  fs_exists (loop images fs).1 (caption_path output_dir extension lp) = true.
Proof.
  revert fs. induction images as [| img0 rest IH]; intros fs Hok Hin Hlp Hcap.
  { by apply elem_of_nil in Hin. }
  assert (Hwrite : ∀ content fs',
            fs_write fs (caption_path output_dir extension lp) content = Ok fs' →
            fs_exists (loop rest fs').1 (caption_path output_dir extension lp) = true).
  { intros content fs' [Hf _]%fs_write_files. apply caption_loop_exists.
    apply (fs_exists_files _ _ content). rewrite Hf. apply lookup_insert_eq. }
  apply elem_of_cons in Hin as [<- | Hin].
  - simpl in *. rewrite Hlp in *.
    destruct (fs_exists fs _) eqn:Hx; [by apply caption_loop_exists |].
    destruct (String.eqb extension "json") eqn:Hj.
    { destruct (fs_write fs _ (to_json img)) as [fs' |] eqn:Hw; [by eapply Hwrite | done]. }
    destruct Hcap as [-> | Hcap]; [done |].
    destruct (String.eqb extension "txt") eqn:Ht; [| done].
    unfold truthy in Hcap. destruct (alt img) as [a |]; [| done].
    rewrite Hcap in *.
    destruct (fs_write fs _ a) as [fs' |] eqn:Hw; [by eapply Hwrite | done].
  - simpl in *.
    repeat (case_match; simplify_eq; simpl in *; try done); by apply IH.
Qed.

Lemma caption_loop_skips_no_alt img rest fs :
  extension = "txt" → truthy (alt img) = false →
  loop (img :: rest) fs = loop rest fs.
Proof.
  intros -> Ha. simpl. unfold truthy in Ha.
  destruct (local_path img); [| done].
  destruct (fs_exists fs _); [done |].
  destruct (alt img) as [a |]; [| done].
  apply negb_false_iff in Ha. by rewrite Ha.
Qed.

(** C8. [add_captions_to_file] leaves every file that exists untouched; a
    file it creates is the sidecar of an item with a local path, named after
    the stem of that path with the chosen extension, and holds the item's
    JSON record or its alt text; after a run that did not raise, every item
    with a local path and a caption to write has its sidecar; in txt mode
    an item without alt text is passed over. *)
Theorem C8_sidecar_captions (images : list PinterestMedia) (fs : filesystem) :
  let result := add_captions_to_file to_json images output_dir extension fs in
  (∀ p c, files fs !! p = Some c → files result.1 !! p = Some c)
  ∧ (∀ p c, files fs !! p = None → files result.1 !! p = Some c →
       ∃ img lp, img ∈ images ∧ local_path img = Some lp ∧
                 p = caption_path output_dir extension lp ∧ sidecar_of img c)
  ∧ (result.2 = Ok () →
     ∀ img lp, img ∈ images → local_path img = Some lp →
               extension = "json" ∨ truthy (alt img) = true →
               fs_exists result.1 (caption_path output_dir extension lp) = true)
  ∧ (extension = "txt" →
     ∀ img rest, truthy (alt img) = false →
       add_captions_to_file to_json (img :: rest) output_dir extension fs =
       add_captions_to_file to_json rest output_dir extension fs).
Proof.
  unfold add_captions_to_file, fs_mkdir.
  destruct (bool_decide (is_Some (files fs !! output_dir))); simpl.
  { split; [done |]. split; [intros p c H1 H2; congruence |]. split; [done |]. done. }
  set (fs1 := {| files := files fs; dirs := {[output_dir]} ∪ dirs fs;
                 read_denied := read_denied fs; write_denied := write_denied fs |}).
  split; [| split; [| split]].
  - intros p c Hp. by apply caption_loop_keeps.
  - intros p c Hn Hs. by apply (caption_loop_provenance images fs1).
  - intros Hok img lp Hin Hlp Hcap. by apply (caption_loop_covers images fs1 img lp).
  - intros Ht img rest Ha. by apply caption_loop_skips_no_alt.
Qed.

End CaptionLoop.

(** Three downloaded pins in txt mode: the sidecar of pin 7 is there and
    stays as it is, the second pin gets its alt text, the pin without alt
    text gets no file. *)
Example captions_txt :
  let result := add_captions_to_file (λ _, "{}")
                  [Examples.photo; Examples.broken; Examples.silent] "captions" "txt"
                  Examples.fs_captions in
  result.2 = Ok ()
  ∧ files result.1 !! "captions/7.txt" = Some "an older caption"
  ∧ files result.1 !! "captions/broken.txt" = Some "broken"
  ∧ files result.1 !! "captions/13.txt" = None.
Proof. vm_compute. done. Qed.

(** ** Captions in the files' metadata *)

Section MetaLoop.
Context {M : Type}
        (meta_write_comment meta_write_subject : PinterestMedia → string → M → M * outcome unit).

#[local] Abbreviation caption_meta := (ScraperBase.caption_meta M meta_write_comment meta_write_subject).
#[local] Abbreviation add_captions_to_meta :=
  (ScraperBase.add_captions_to_meta M meta_write_comment meta_write_subject).
#[local] Abbreviation caption_all := (ScraperBase.caption_all M meta_write_comment meta_write_subject).
#[local] Abbreviation meta_failures :=
  (ScraperBase.meta_failures M meta_write_comment meta_write_subject).

Lemma caption_meta_skips_stream img m :
  video_stream img = true → caption_meta img m = (m, Ok ()).
Proof. intros H. unfold ScraperBase.caption_meta. by rewrite H. Qed.

Lemma caption_meta_skips_gif img lp m :
  local_path img = Some lp → suffix lp = ".gif" → caption_meta img m = (m, Ok ()).
Proof.
  intros Hlp Hs. unfold ScraperBase.caption_meta. rewrite Hlp, Hs.
  by destruct (video_stream img).
Qed.

Lemma caption_meta_raises img m e :
  (∀ img s m e, (meta_write_comment img s m).2 = Raise e → is_Exception e = true) →
  (∀ img s m e, (meta_write_subject img s m).2 = Raise e → is_Exception e = true) →
  (caption_meta img m).2 = Raise e → is_Exception e = true.
Proof.
  intros Hc Hs. unfold ScraperBase.caption_meta.
  destruct (video_stream img); [done |].
  destruct (local_path img) as [lp |]; [| done].
  destruct (String.eqb (suffix lp) ".gif"); [done |].
  destruct (origin img) as [o |]; [destruct (negb (String.eqb o "")) |].
  1: destruct (meta_write_comment img o m) as [m1 [[] | e1]] eqn:Hw.
  2: { simpl. intros [= <-]. apply (Hc img o m). by rewrite Hw. }
  all: destruct (alt img) as [a |]; [destruct (negb (String.eqb a "")) |]; try done.
  all: apply Hs.
Qed.

Lemma add_captions_to_meta_total images m :
  (∀ img m e, (caption_meta img m).2 = Raise e → is_Exception e = true) →
  ∃ log, add_captions_to_meta images m = (caption_all images m, log, Ok ())
         ∧ length log = meta_failures images m.
Proof.
  intros Hexc. revert m. induction images as [| img rest IH]; intros m.
  { by exists []. }
  simpl. pose proof (Hexc img m) as He.
  destruct (caption_meta img m) as [m1 [[] | e]]; simpl in *.
  - apply IH.
  - rewrite (He e eq_refl).
    destruct (IH m1) as (log & -> & Hlen).
    eexists. split; [done |]. simpl. by rewrite Hlen.
Qed.

(** C9. [add_captions_to_meta] calls no writer for a video stream or for a
    file with the suffix [.gif]; when the writers fail with exceptions (as
    opposed to interrupts) the function returns normally, every image of
    the list has had its turn, and each failure left one warning in the
    log. *)
Theorem C9_metadata_captions (images : list PinterestMedia) (m : M) :
  (∀ img s m e, (meta_write_comment img s m).2 = Raise e → is_Exception e = true) →
  (∀ img s m e, (meta_write_subject img s m).2 = Raise e → is_Exception e = true) →
  (∀ img rest m0, video_stream img = true →
     add_captions_to_meta (img :: rest) m0 = add_captions_to_meta rest m0)
  ∧ (∀ img lp rest m0, local_path img = Some lp → suffix lp = ".gif" →
       add_captions_to_meta (img :: rest) m0 = add_captions_to_meta rest m0)
  ∧ (∃ log, add_captions_to_meta images m = (caption_all images m, log, Ok ())
            ∧ length log = meta_failures images m)
  ∧ (∀ before img after,
       images = before ++ img :: after →
       caption_all images m =
       caption_all after (caption_meta img (caption_all before m)).1).
Proof.
  intros Hc Hs. split; [| split; [| split]].
  - intros img rest m0 Hv. simpl. by rewrite caption_meta_skips_stream.
  - intros img lp rest m0 Hlp Hg. simpl. by rewrite (caption_meta_skips_gif img lp).
  - apply add_captions_to_meta_total. intros img m0 e. by apply caption_meta_raises.
  - intros before img after ->. unfold ScraperBase.caption_all.
    by rewrite fold_left_app.
Qed.

End MetaLoop.

Lemma C9_metadata_captions_witness :
  ∃ log,
    ScraperBase.add_captions_to_meta _ (Examples.write_tag "comment") (Examples.write_tag "subject")
      [Examples.clip; Examples.animation; Examples.broken; Examples.photo] []
    = ([("comment", "https://www.pinterest.com/pin/1/"); ("subject", "a cat")], log, Ok ())
    ∧ length log = 1%nat.
Proof.
  assert (Hexc : ∀ tag img s (m : list (string * string)) e,
            (Examples.write_tag tag img s m).2 = Raise e → is_Exception e = true).
  { intros tag img s m e. unfold Examples.write_tag.
    repeat (case_match; simpl; try done); by intros [= <-]. }
  destruct (C9_metadata_captions (Examples.write_tag "comment") (Examples.write_tag "subject")
              [Examples.clip; Examples.animation; Examples.broken; Examples.photo] []
              (Hexc "comment") (Hexc "subject")) as (_ & _ & (log & Heq & Hlen) & _).
  exists log. split; [exact Heq | exact Hlen].
Defined.

(** ** The crawl loop: invariants *)

Lemma images_upgraded_cons im rest :
  images_upgraded rest `sublist_of` images_upgraded (im :: rest).
Proof.
  simpl. destruct (get_src im) as [[s |] | e]; try done.
  destruct (contains thumbnail s); [by apply sublist_cons | done].
Qed.

Section CrawlProps.
Context (int : string → option Z) (num : Z) (ensure_alt : bool).

#[local] Abbreviation scan_images := (Gui.scan_images int num ensure_alt).
#[local] Abbreviation scan_divs := (Gui.scan_divs int num ensure_alt).
#[local] Abbreviation loop_body := (Gui.loop_body int num ensure_alt).
#[local] Abbreviation while_loop := (Gui.while_loop int num ensure_alt).
#[local] Abbreviation patched_scrape := (Gui.patched_scrape int num ensure_alt).
#[local] Abbreviation collected := (Gui.collected num).

#[local] Abbreviation scan_post := (Gui.scan_post num).
#[local] Abbreviation crawl_inv := (Gui.crawl_inv num).
#[local] Abbreviation adds_nothing := (Gui.adds_nothing int num ensure_alt).

Lemma scan_post_refl offer u l : collected u l → scan_post offer u l u l.
Proof.
  intros H. split; [done |]. split; [done |].
  exists []. split; [by rewrite app_nil_r | apply sublist_nil_l].
Qed.

Lemma scan_post_weaken offer offer' u l u' l' :
  offer `sublist_of` offer' → scan_post offer u l u' l' → scan_post offer' u l u' l'.
Proof.
  intros Hsub (Hc & Hu & new & -> & Hn). split; [done |]. split; [done |].
  exists new. split; [done |]. by etrans.
Qed.

Lemma collected_add u l s :
  collected u l → s ∉ u → Z.of_nat (size u) < num →
  (∀ m, collected ({[s]} ∪ u) l ∧
        (src m = s → collected ({[s]} ∪ u) (l ++ [m]))).
Proof.
  intros (H1 & H2 & H3 & H4) Hs Hlt m.
  assert (size ({[s]} ∪ u) = S (size u)) as Hsize.
  { rewrite size_union by set_solver. by rewrite size_singleton. }
  split.
  - split; [intros m' Hm'; set_solver |]. split; [done |]. split; lia.
  - intros Hsrc. split; [| split; [| split]].
    + intros m' [Hm' | ->%list_elem_of_singleton]%elem_of_app; [set_solver | set_solver].
    + rewrite map_app. simpl. apply NoDup_app. split; [done |].
      split; [| apply NoDup_singleton].
      intros x Hx ->%list_elem_of_singleton. rewrite Hsrc in Hx.
      apply list_elem_of_fmap in Hx as (m' & -> & Hm'). apply Hs. by apply H1.
    + rewrite length_app. simpl. lia.
    + lia.
Qed.

Lemma scan_images_spec pin_id href images u l u' l' r :
  collected u l → Z.of_nat (size u) < num →
  scan_images pin_id href images u l = (u', l', r) →
  scan_post (images_upgraded images) u l u' l'.
Proof.
  revert u l. induction images as [| im rest IH]; intros u l Hc Hlt Hscan.
  { simpl in Hscan. injection Hscan as <- <- <-. by apply scan_post_refl. }
  assert (Hskip : scan_images pin_id href rest u l = (u', l', r) →
                  scan_post (images_upgraded (im :: rest)) u l u' l').
  { intros H. eapply scan_post_weaken; [apply images_upgraded_cons | by apply IH]. }
  simpl in Hscan.
  destruct (get_alt im) as [a | e].
  2: { injection Hscan as <- <- <-. by apply scan_post_refl. }
  destruct (ensure_alt && blank a); [by apply Hskip |].
  destruct (get_src im) as [[s |] | e] eqn:Hsrc.
  3: { injection Hscan as <- <- <-. by apply scan_post_refl. }
  2: by apply Hskip.
  destruct (negb (String.eqb s "") && contains thumbnail s) eqn:Hmark; [| by apply Hskip].
  apply andb_true_iff in Hmark as [_ Hmark].
  case_bool_decide as Hin; [by apply Hskip |].
  simpl. rewrite Hsrc, Hmark.
  set (s' := replace thumbnail originals s) in *.
  destruct (int pin_id) as [n |].
  2: { injection Hscan as <- <- <-.
       destruct (collected_add u l s' Hc Hin Hlt (new_media 0 s' a href)) as [Hc' _].
       split; [done |]. split; [set_solver |].
       exists []. split; [by rewrite app_nil_r | apply sublist_nil_l]. }
  destruct (collected_add u l s' Hc Hin Hlt (new_media n s' a href)) as [_ Hc'].
  specialize (Hc' eq_refl).
  destruct (num <=? Z.of_nat (size ({[s']} ∪ u))) eqn:Hfull.
  - injection Hscan as <- <- <-. split; [done |]. split; [set_solver |].
    exists [new_media n s' a href]. split; [done |]. simpl.
    apply sublist_skip, sublist_nil_l.
  - apply Z.leb_gt in Hfull.
    destruct (IH _ _ Hc' Hfull Hscan) as (Hc2 & Hu2 & new & -> & Hnew).
    split; [done |]. split; [set_solver |].
    exists (new_media n s' a href :: new). split; [by rewrite <- app_assoc |].
    simpl. by apply sublist_skip.
Qed.

Lemma scan_divs_spec divs u l u' l' r :
  collected u l →
  scan_divs divs u l = (u', l', r) →
  scan_post (divs_upgraded divs) u l u' l'.
Proof.
  revert u l. induction divs as [| d rest IH]; intros u l Hc Hscan.
  { simpl in Hscan. injection Hscan as <- <- <-. by apply scan_post_refl. }
  assert (Hskip : scan_divs rest u l = (u', l', r) →
                  scan_post (divs_upgraded (d :: rest)) u l u' l').
  { intros H. eapply scan_post_weaken; [| by apply IH]. simpl. apply sublist_inserts_l. done. }
  simpl in Hscan.
  destruct (num <=? Z.of_nat (size u)) eqn:Hfull.
  { injection Hscan as <- <- <-. by apply scan_post_refl. }
  apply Z.leb_gt in Hfull.
  destruct (find_images d) as [images | e] eqn:Himgs.
  2: { injection Hscan as <- <- <-. by apply scan_post_refl. }
  destruct (find_href d) as [href | e].
  2: { injection Hscan as <- <- <-. by apply scan_post_refl. }
  destruct (get_pin_id d) as [[pin_id |] | e].
  3: { injection Hscan as <- <- <-. by apply scan_post_refl. }
  2: by apply Hskip.
  destruct (String.eqb pin_id ""); [by apply Hskip |].
  destruct (scan_images pin_id href images u l) as [[u1 l1] r1] eqn:Hi.
  destruct (scan_images_spec _ _ _ _ _ _ _ _ Hc Hfull Hi) as (Hc1 & Hu1 & new1 & -> & Hn1).
  simpl. rewrite Himgs.
  destruct r1 as [e |].
  - injection Hscan as <- <- <-. split; [done |]. split; [done |].
    exists new1. split; [done |]. by apply sublist_inserts_r.
  - destruct (IH _ _ Hc1 Hscan) as (Hc2 & Hu2 & new2 & -> & Hn2).
    split; [done |]. split; [set_solver |].
    exists (new1 ++ new2). split; [by rewrite <- app_assoc |].
    rewrite map_app. by apply sublist_app.
Qed.

(** A scan that is interrupted by a stale element met one. *)
Lemma scan_images_stale pin_id href images u l u' l' e :
  forallb image_stale_free images = true →
  scan_images pin_id href images u l = (u', l', Some e) →
  is_StaleElementReferenceException e = false.
Proof.
  revert u l. induction images as [| im rest IH]; intros u l Hfree Hscan; [done |].
  simpl in Hfree. apply andb_true_iff in Hfree as [Him Hrest].
  apply andb_true_iff in Him as [Ha Hs].
  simpl in Hscan.
  destruct (get_alt im) as [a | e1].
  2: { injection Hscan as <- <- <-. simpl in Ha. by apply negb_true_iff. }
  destruct (ensure_alt && blank a); [by eapply IH |].
  destruct (get_src im) as [[s |] | e1].
  3: { injection Hscan as <- <- <-. simpl in Hs. by apply negb_true_iff. }
  2: by eapply IH.
  destruct (negb (String.eqb s "") && contains thumbnail s); [| by eapply IH].
  case_bool_decide; [by eapply IH |].
  destruct (int pin_id); [| by injection Hscan as <- <- <-].
  destruct (num <=? _); [done | by eapply IH].
Qed.

Lemma scan_divs_stale divs u l u' l' e :
  forallb div_stale_free divs = true →
  scan_divs divs u l = (u', l', Some e) →
  is_StaleElementReferenceException e = false.
Proof.
  revert u l. induction divs as [| d rest IH]; intros u l Hfree Hscan; [done |].
  simpl in Hfree. apply andb_true_iff in Hfree as [Hd Hrest].
  unfold div_stale_free in Hd. rewrite !andb_true_iff in Hd.
  destruct Hd as [[[Hi Hh] Hp] Himgs].
  simpl in Hscan. destruct (num <=? _); [done |].
  destruct (find_images d) as [images | e1].
  2: { injection Hscan as <- <- <-. simpl in Hi. by apply negb_true_iff. }
  destruct (find_href d) as [href | e1].
  2: { injection Hscan as <- <- <-. simpl in Hh. by apply negb_true_iff. }
  destruct (get_pin_id d) as [[pin_id |] | e1].
  3: { injection Hscan as <- <- <-. simpl in Hp. by apply negb_true_iff. }
  2: by eapply IH.
  destruct (String.eqb pin_id ""); [by eapply IH |].
  destruct (scan_images pin_id href images u l) as [[u1 l1] [e1 |]] eqn:Hs.
  - injection Hscan as <- <- <-. by eapply scan_images_stale.
  - by eapply IH.
Qed.

Lemma handle_not_stale e c :
  is_StaleElementReferenceException e = false →
  ∃ why, handle e c = Exit c why ∧ why ≠ Stall ∧ why ≠ LoopEnd.
Proof.
  intros H. unfold handle. rewrite H.
  destruct (is_OSError e); eexists; (split; [done |]); by split.
Qed.

(** One iteration, case by case. *)
Lemma loop_body_spec b i c :
  crawl_inv b i c →
  let s := loop_body (b i) c in
  scan_post (pass_upgraded (b i)) (unique_results c) (imgs_data c)
            (unique_results (step_crawl s)) (imgs_data (step_crawl s))
  ∧ match s with
    | Next c' =>
        crawl_inv b (S i) c' ∧
        (scroll_count c' = scroll_count c + 1 ∨
         scroll_count c' = scroll_count c ∧ pass_stale_free (b i) = false)
    | Exit c' why =>
        scroll_count c' = scroll_count c ∧ why ≠ LoopEnd ∧
        map src (imgs_data c') `sublist_of` discovered b (S i)
    end.
Proof.
  intros (Hc & Hsub & Hnn & Hsc). unfold Gui.loop_body.
  assert (Hpost : ∀ u l, scan_post (pass_upgraded (b i)) (unique_results c) (imgs_data c) u l →
            map src l `sublist_of` discovered b (S i)).
  { intros u l (_ & _ & new & -> & Hnew). simpl. rewrite map_app. by apply sublist_app. }
  assert (Hh : ∀ e u l nn,
     scan_post (pass_upgraded (b i)) (unique_results c) (imgs_data c) u l →
     0 ≤ nn < 10 →
     (is_StaleElementReferenceException e = true → pass_stale_free (b i) = false) →
     match handle e {| unique_results := u; imgs_data := l;
                       scroll_count := scroll_count c; no_new_scrolls := nn |} with
     | Next c' =>
        scan_post (pass_upgraded (b i)) (unique_results c) (imgs_data c)
                  (unique_results c') (imgs_data c') ∧
        crawl_inv b (S i) c' ∧
        (scroll_count c' = scroll_count c + 1 ∨
         scroll_count c' = scroll_count c ∧ pass_stale_free (b i) = false)
     | Exit c' why =>
        scan_post (pass_upgraded (b i)) (unique_results c) (imgs_data c)
                  (unique_results c') (imgs_data c') ∧
        scroll_count c' = scroll_count c ∧ why ≠ LoopEnd ∧
        map src (imgs_data c') `sublist_of` discovered b (S i)
     end).
  { intros e u l nn Hp Hn Hst. unfold handle.
    destruct (is_StaleElementReferenceException e).
    - split; [done |]. split.
      + split; [apply Hp |]. split; [by eapply Hpost |]. split; [done |]. simpl. lia.
      + right. split; [done | by apply Hst].
    - destruct (is_OSError e); (split; [done |]); (split; [done |]);
        (split; [done |]); by eapply Hpost. }
  assert (Hsplit : ∀ s : step,
     match s with
     | Next c' =>
        scan_post (pass_upgraded (b i)) (unique_results c) (imgs_data c)
                  (unique_results c') (imgs_data c') ∧
        crawl_inv b (S i) c' ∧
        (scroll_count c' = scroll_count c + 1 ∨
         scroll_count c' = scroll_count c ∧ pass_stale_free (b i) = false)
     | Exit c' why =>
        scan_post (pass_upgraded (b i)) (unique_results c) (imgs_data c)
                  (unique_results c') (imgs_data c') ∧
        scroll_count c' = scroll_count c ∧ why ≠ LoopEnd ∧
        map src (imgs_data c') `sublist_of` discovered b (S i)
     end →
     scan_post (pass_upgraded (b i)) (unique_results c) (imgs_data c)
            (unique_results (step_crawl s)) (imgs_data (step_crawl s))
     ∧ match s with
       | Next c' =>
           crawl_inv b (S i) c' ∧
           (scroll_count c' = scroll_count c + 1 ∨
            scroll_count c' = scroll_count c ∧ pass_stale_free (b i) = false)
       | Exit c' why =>
           scroll_count c' = scroll_count c ∧ why ≠ LoopEnd ∧
           map src (imgs_data c') `sublist_of` discovered b (S i)
       end).
  { intros [c' | c' why]; simpl; tauto. }
  apply Hsplit.
  destruct (find_divs (b i)) as [divs | e] eqn:Hfd.
  2: { assert ({| unique_results := unique_results c; imgs_data := imgs_data c;
                  scroll_count := scroll_count c; no_new_scrolls := no_new_scrolls c |} = c)
         as Heta by by destruct c.
       assert (is_StaleElementReferenceException e = true → pass_stale_free (b i) = false)
         as Hst.
       { intros He. unfold pass_stale_free. rewrite Hfd. simpl. by rewrite He. }
       pose proof (Hh e _ _ _ (scan_post_refl _ _ _ Hc) Hnn Hst) as H.
       by rewrite Heta in H. }
  destruct (scan_divs divs (unique_results c) (imgs_data c)) as [[u l] r] eqn:Hscan.
  pose proof (scan_divs_spec _ _ _ _ _ _ Hc Hscan) as Hp.
  assert (Hp' : scan_post (pass_upgraded (b i)) (unique_results c) (imgs_data c) u l).
  { unfold pass_upgraded. by rewrite Hfd. }
  destruct r as [e |].
  { apply Hh; [done | done |].
    intros He. apply not_true_is_false. intros Hfree.
    unfold pass_stale_free in Hfree. rewrite Hfd in Hfree.
    rewrite !andb_true_iff in Hfree. destruct Hfree as [_ Hfree].
    by rewrite (scan_divs_stale _ _ _ _ _ _ Hfree Hscan) in He. }
  set (nn := if Z.of_nat (size u) - Z.of_nat (size (unique_results c)) =? 0
             then no_new_scrolls c + 1 else 0).
  simpl.
  assert (0 ≤ nn) as Hnn0 by (unfold nn; destruct (_ =? 0); lia).
  destruct (10 <=? nn) eqn:Hten.
  { simpl. split; [done |]. split; [done |]. split; [done |]. by eapply Hpost. }
  apply Z.leb_gt in Hten.
  destruct (page_down (b i)) as [[] | e] eqn:Hpd.
  - assert (crawl_inv b (S i)
              {| unique_results := u; imgs_data := l;
                 scroll_count := scroll_count c + 1; no_new_scrolls := nn |}) as Hinv.
    { split; [apply Hp |]. split; [by eapply Hpost |]. split; simpl; lia. }
    destruct (load_more (b i)); simpl; (split; [done |]); (split; [done |]); by left.
  - apply Hh; [done | lia |].
    intros He. unfold pass_stale_free. rewrite Hpd. simpl. rewrite He. simpl.
    by rewrite andb_false_r.
Qed.

Lemma crawl_inv_init b : crawl_inv b 0 crawl_init.
Proof.
  split; [| split; [| split]]; simpl; try lia; [| apply sublist_nil_l].
  split; [intros m Hm; by apply elem_of_nil in Hm |]. split; [apply NoDup_nil_2 |].
  rewrite size_empty. simpl. lia.
Qed.

Lemma while_loop_inv b fuel i c c' n why :
  crawl_inv b i c →
  while_loop fuel b i c = Some (c', n, why) →
  collected (unique_results c') (imgs_data c')
  ∧ map src (imgs_data c') `sublist_of` discovered b n
  ∧ (i ≤ n)%nat.
Proof.
  revert i c. induction fuel as [| fuel IH]; intros i c Hinv Hrun; [done |].
  simpl in Hrun. destruct (scroll_count c <? 800) eqn:Hlt.
  - pose proof (loop_body_spec b i c Hinv) as [Hpost Hcase].
    destruct (loop_body (b i) c) as [c1 | c1 why1].
    + destruct Hcase as [Hinv1 _].
      destruct (IH _ _ Hinv1 Hrun) as (? & ? & ?). split; [done |]. split; [done | lia].
    + injection Hrun as <- <- <-. destruct Hcase as (Hsc & _ & Hsub).
      split; [apply Hpost |]. split; [done | lia].
  - injection Hrun as <- <- <-.
    destruct Hinv as (? & ? & ? & ?). split; [done |]. split; [done | lia].
Qed.

(** Without stale elements every iteration that goes on has scrolled, so
    the bound on [scroll_count] bounds the iterations. *)
Lemma while_loop_ceiling b fuel i c :
  (∀ j, pass_stale_free (b j) = true) →
  crawl_inv b i c → scroll_count c = Z.of_nat i → (i ≤ 800)%nat → (800 - i < fuel)%nat →
  ∃ c' n why, while_loop fuel b i c = Some (c', n, why) ∧ (n ≤ 800)%nat.
Proof.
  intros Hfree. revert i c. induction fuel as [| fuel IH]; intros i c Hinv Hsc Hi Hfuel; [lia |].
  simpl. destruct (scroll_count c <? 800) eqn:Hlt.
  - apply Z.ltb_lt in Hlt.
    pose proof (loop_body_spec b i c Hinv) as [_ Hcase].
    destruct (loop_body (b i) c) as [c1 | c1 why1].
    + destruct Hcase as [Hinv1 [Hs | [_ Hs]]]; [| by rewrite Hfree in Hs].
      apply IH; [done | lia | lia | lia].
    + exists c1, (S i), why1. split; [done | lia].
  - exists c, i, LoopEnd. split; [done | lia].
Qed.

(** A pass that shows nothing new, in a session without stale elements. *)
Lemma loop_body_quiet p c :
  adds_nothing p (unique_results c) → pass_stale_free p = true →
  match loop_body p c with
  | Next c' =>
      unique_results c' = unique_results c ∧
      no_new_scrolls c' = no_new_scrolls c + 1 ∧ no_new_scrolls c' < 10 ∧
      scroll_count c' = scroll_count c + 1
  | Exit _ why => why ≠ LoopEnd
  end.
Proof.
  unfold Gui.adds_nothing, pass_stale_free, Gui.loop_body. intros Hq Hfree.
  destruct (find_divs p) as [divs | e].
  2: { simpl in Hfree. apply andb_true_iff in Hfree as [[He _]%andb_true_iff _].
       apply negb_true_iff in He.
       by destruct (handle_not_stale e c He) as (why & -> & _ & ?). }
  specialize (Hq (imgs_data c)).
  rewrite !andb_true_iff in Hfree. destruct Hfree as [[_ Hpd] Hdivs].
  destruct (scan_divs divs (unique_results c) (imgs_data c)) as [[u l] r] eqn:Hscan.
  simpl in Hq. subst u.
  destruct r as [e |].
  { pose proof (scan_divs_stale _ _ _ _ _ _ Hdivs Hscan) as He.
    by destruct (handle_not_stale e {| unique_results := unique_results c; imgs_data := l;
                        scroll_count := scroll_count c;
                        no_new_scrolls := no_new_scrolls c |} He) as (why & -> & _ & ?). }
  rewrite Z.sub_diag. simpl.
  destruct (10 <=? no_new_scrolls c + 1) eqn:Hten; [done |].
  apply Z.leb_gt in Hten.
  destruct (page_down p) as [[] | e].
  - by destruct (load_more p).
  - simpl in Hpd. apply negb_true_iff in Hpd.
    by destruct (handle_not_stale e {| unique_results := unique_results c; imgs_data := l;
                        scroll_count := scroll_count c;
                        no_new_scrolls := no_new_scrolls c + 1 |} Hpd) as (why & -> & _ & ?).
Qed.

Lemma while_loop_stall b fuel i c k :
  (∀ j, pass_stale_free (b j) = true) →
  (∀ j, (i ≤ j)%nat → adds_nothing (b j) (unique_results c)) →
  no_new_scrolls c = 10 - Z.of_nat k → scroll_count c = Z.of_nat i →
  (0 < k)%nat → (k ≤ fuel)%nat → (i + k < 800)%nat →
  ∃ c' n why, while_loop fuel b i c = Some (c', n, why) ∧ (n ≤ i + k)%nat ∧ why ≠ LoopEnd.
Proof.
  intros Hfree. revert i c k.
  induction fuel as [| fuel IH]; intros i c k Hq Hnn Hsc Hk Hfuel Hik; [lia |].
  simpl. destruct (scroll_count c <? 800) eqn:Hlt; [| apply Z.ltb_ge in Hlt; lia].
  pose proof (loop_body_quiet (b i) c (Hq i (le_n _)) (Hfree i)) as Hbody.
  destruct (loop_body (b i) c) as [c1 | c1 why1].
  - destruct Hbody as (Hu & Hn1 & Hlt1 & Hsc1).
    destruct (IH (S i) c1 (k - 1)%nat) as (c' & n & why & Hrun & Hn & Hwhy); try lia.
    + intros j Hj. rewrite Hu. apply Hq. lia.
    + exists c', n, why. split; [done |]. split; [lia | done].
  - exists c1, (S i), why1. split; [done |]. split; [lia | done].
Qed.

(** The stall counter after a pass whose scan went through. *)
Lemma loop_body_counter p c divs u l :
  find_divs p = Ok divs →
  scan_divs divs (unique_results c) (imgs_data c) = (u, l, None) →
  let counter := if Z.of_nat (size u) - Z.of_nat (size (unique_results c)) =? 0
                 then no_new_scrolls c + 1 else 0 in
  no_new_scrolls (step_crawl (loop_body p c)) = counter
  ∧ (10 ≤ counter ↔ ∃ c', loop_body p c = Exit c' Stall).
Proof.
  intros Hfd Hscan counter. unfold Gui.loop_body. rewrite Hfd, Hscan. fold counter.
  cbn [no_new_scrolls].
  destruct (10 <=? counter) eqn:Hten.
  { apply Z.leb_le in Hten. split; [done |]. split; [eauto | done]. }
  apply Z.leb_gt in Hten.
  assert (Hno : ∀ s : step, no_new_scrolls (step_crawl s) = counter →
            (∀ c', s ≠ Exit c' Stall) →
            no_new_scrolls (step_crawl s) = counter ∧ (10 ≤ counter ↔ ∃ c', s = Exit c' Stall)).
  { intros s0 H1 H2. split; [done |]. split; [lia | intros [c' ->]; by destruct (H2 c')]. }
  destruct (page_down p) as [[] | e].
  - destruct (load_more p); by apply Hno.
  - unfold handle. destruct (is_StaleElementReferenceException e); [by apply Hno |].
    destruct (is_OSError e); by apply Hno.
Qed.

Lemma loop_body_propagated p c c' e :
  loop_body p c = Exit c' (Propagated e) → is_OSError e = false.
Proof.
  unfold Gui.loop_body, handle.
  destruct (find_divs p) as [divs | e0].
  2: { destruct (is_StaleElementReferenceException e0); [done |].
       destruct (is_OSError e0) eqn:H0; [done | by intros [= _ <-]]. }
  destruct (scan_divs _ _ _) as [[u l] [e0 |]].
  { destruct (is_StaleElementReferenceException e0); [done |].
    destruct (is_OSError e0) eqn:H0; [done | by intros [= _ <-]]. }
  destruct (10 <=? _); [done |].
  destruct (page_down p) as [[] | e0]; [by destruct (load_more p) |].
  destruct (is_StaleElementReferenceException e0); [done |].
  destruct (is_OSError e0) eqn:H0; [done | by intros [= _ <-]].
Qed.

Lemma while_loop_propagated b fuel i c c' n e :
  while_loop fuel b i c = Some (c', n, Propagated e) → is_OSError e = false.
Proof.
  revert i c. induction fuel as [| fuel IH]; intros i c Hrun; [done |].
  simpl in Hrun. destruct (scroll_count c <? 800); [| done].
  destruct (loop_body (b i) c) as [c1 | c1 why] eqn:Hb; [by eapply IH |].
  injection Hrun as <- <- ->. by eapply loop_body_propagated.
Qed.

(** The load-more attempt cannot change the course of an iteration. *)
Lemma loop_body_load_more p c :
  loop_body p c =
  loop_body {| find_divs := find_divs p; page_down := page_down p; load_more := Ok () |} c.
Proof.
  unfold Gui.loop_body. simpl.
  destruct (find_divs p); [| done].
  destruct (scan_divs _ _ _) as [[u l] [e |]]; [done |].
  destruct (10 <=? _); [done |].
  destruct (page_down p) as [[] |]; [by destruct (load_more p) | done].
Qed.

Lemma patched_scrape_result fuel b scraped :
  patched_scrape fuel b = Some (Ok scraped) →
  scraped = [] ∨
  ∃ c n why, while_loop fuel (passes b) 0 crawl_init = Some (c, n, why) ∧ scraped = imgs_data c.
Proof.
  unfold Gui.patched_scrape. destruct (navigate b) as [[] | e].
  - destruct (while_loop fuel (passes b) 0 crawl_init) as [[[c n] why] |] eqn:Hrun; [| done].
    intros H. right. exists c, n, why. split; [done |].
    destruct why; by simplify_eq.
  - destruct (is_OSError e); [| done]. intros [= <-]. by left.
Qed.

Lemma patched_scrape_inv fuel b scraped :
  patched_scrape fuel b = Some (Ok scraped) →
  NoDup (map src scraped)
  ∧ Z.of_nat (length scraped) ≤ Z.max 0 num
  ∧ ∃ n, map src scraped `sublist_of` discovered (passes b) n.
Proof.
  intros [-> | (c & n & why & Hrun & ->)]%patched_scrape_result.
  - split; [apply NoDup_nil_2 |]. split; [simpl; lia |]. exists O. done.
  - destruct (while_loop_inv _ _ _ _ _ _ _ (crawl_inv_init (passes b)) Hrun)
      as ((_ & Hnd & Hlen & Hsize) & Hsub & _).
    split; [done |]. split; [lia |]. by exists n.
Qed.

End CrawlProps.

(** ** The candidate filter of [scrape_images] *)

Lemma dedup_loop_spec limit scraped_imgs scraped_ids imgs scraped :
  (∀ m, m ∈ imgs → id m ∈ scraped_ids) → NoDup (map id imgs) →
  Z.of_nat (length imgs) = scraped → scraped + 1 ≤ Z.max 1 limit →
  let r := dedup_loop limit scraped_imgs scraped_ids imgs scraped in
  NoDup (map id r) ∧ Z.of_nat (length r) ≤ Z.max 1 limit
  ∧ ∃ new, r = imgs ++ new ∧ new `sublist_of` scraped_imgs.
Proof.
  revert scraped_ids imgs scraped.
  induction scraped_imgs as [| img rest IH]; intros ids imgs scraped Hids Hnd Hlen Hroom; simpl.
  { split; [done |]. split; [lia |]. exists []. by rewrite app_nil_r. }
  case_bool_decide as Hin.
  { destruct (IH ids imgs scraped Hids Hnd Hlen Hroom) as (? & ? & new & ? & ?).
    split; [done |]. split; [done |]. exists new. split; [done | by apply sublist_cons]. }
  assert (NoDup (map id (imgs ++ [img]))) as Hnd'.
  { rewrite map_app. apply NoDup_app. split; [done |]. split; [| apply NoDup_singleton].
    intros x Hx ->%list_elem_of_singleton.
    apply list_elem_of_fmap in Hx as (m & Hm & Hm'). apply Hin. rewrite Hm. by apply Hids. }
  assert (Z.of_nat (length (imgs ++ [img])) = scraped + 1) as Hlen'.
  { rewrite length_app. simpl. lia. }
  destruct (limit <=? scraped + 1) eqn:Hfull.
  - split; [done |]. split; [lia |]. exists [img]. split; [done |].
    apply sublist_skip, sublist_nil_l.
  - apply Z.leb_gt in Hfull.
    assert (∀ m, m ∈ imgs ++ [img] → id m ∈ ({[id img]} ∪ ids : gset pyid)) as Hids'.
    { intros m [Hm | ->%list_elem_of_singleton]%elem_of_app.
      - apply elem_of_union_r. by apply Hids.
      - by apply elem_of_union_l, elem_of_singleton. }
    assert (scraped + 1 + 1 ≤ Z.max 1 limit) as Hroom' by lia.
    destruct (IH _ _ _ Hids' Hnd' Hlen' Hroom') as (? & ? & new & Hr & ?).
    split; [done |]. split; [done |]. exists (img :: new).
    split; [by rewrite Hr, <- app_assoc | by apply sublist_skip].
Qed.

Lemma dedup_spec limit scraped_imgs :
  NoDup (map id (dedup limit scraped_imgs))
  ∧ Z.of_nat (length (dedup limit scraped_imgs)) ≤ Z.max 1 limit
  ∧ dedup limit scraped_imgs `sublist_of` scraped_imgs.
Proof.
  destruct (dedup_loop_spec limit scraped_imgs ∅ [] 0) as (? & ? & new & Hr & ?);
    [by intros m Hm%elem_of_nil | apply NoDup_nil_2 | done | lia |].
  unfold dedup. split; [done |]. split; [done |]. by rewrite Hr.
Qed.

(** ** The crawl loop: candidates, stall counter, socket errors *)

Lemma images_upgraded_elem images x :
  x ∈ images_upgraded images →
  ∃ im s, im ∈ images ∧ get_src im = Ok (Some s) ∧
          contains thumbnail s = true ∧ x = replace thumbnail originals s.
Proof.
  induction images as [| im rest IH]; simpl; [by intros ?%elem_of_nil |].
  assert (Hrest : x ∈ images_upgraded rest →
            ∃ im0 s, im0 ∈ im :: rest ∧ get_src im0 = Ok (Some s) ∧
                     contains thumbnail s = true ∧ x = replace thumbnail originals s).
  { intros (im0 & s & ? & ?)%IH. exists im0, s. split; [by right | done]. }
  destruct (get_src im) as [[s |] | e] eqn:Hs; try done.
  destruct (contains thumbnail s) eqn:Hc; [| done].
  intros [-> | Hx]%elem_of_cons; [| by apply Hrest].
  exists im, s. split; [by left | done].
Qed.

Lemma divs_upgraded_elem divs x :
  x ∈ divs_upgraded divs →
  ∃ im s, im ∈ divs ≫= div_images ∧ get_src im = Ok (Some s) ∧
          contains thumbnail s = true ∧ x = replace thumbnail originals s.
Proof.
  induction divs as [| d rest IH]; simpl; [by intros ?%elem_of_nil |].
  intros [Hx | Hx]%elem_of_app.
  - unfold div_images. destruct (find_images d) as [images |]; [| by apply elem_of_nil in Hx].
    apply images_upgraded_elem in Hx as (im & s & Him & ?).
    exists im, s. split; [| done]. apply elem_of_app. by left.
  - destruct (IH Hx) as (im & s & Him & ?).
    exists im, s. split; [| done]. apply elem_of_app. by right.
Qed.

Lemma discovered_elem b n x :
  x ∈ discovered b n →
  ∃ i im s, im ∈ pass_images (b i) ∧ get_src im = Ok (Some s) ∧
            contains thumbnail s = true ∧ x = replace thumbnail originals s.
Proof.
  induction n as [| n IH]; simpl; [by intros ?%elem_of_nil |].
  intros [Hx | Hx]%elem_of_app; [by apply IH |].
  unfold pass_upgraded in Hx. unfold pass_images.
  exists n. destruct (find_divs (b n)) as [divs |]; [| by apply elem_of_nil in Hx].
  by apply divs_upgraded_elem.
Qed.

(** C2. The candidates that the crawl returns and [scrape_images] filters
    are at most [num], no two of them share an id or a URL, and they stand
    in the order of their discovery: the filtered list is a sub-list of the
    crawl's, whose URLs are a sub-list of the upgraded thumbnail URLs in the
    order the passes showed them. A thumbnail and the full-size form of one
    URL therefore make one candidate. *)
Theorem C2_crawl_candidates (int : string → option Z) (num : Z) (ensure_alt : bool)
    (b : browser) (fuel : nat) (scraped : list PinterestMedia) :
  0 ≤ num →
  patched_scrape int num ensure_alt fuel b = Some (Ok scraped) →
  let final := dedup num scraped in
  Z.of_nat (length final) ≤ num
  ∧ NoDup (map id final)
  ∧ NoDup (map src final)
  ∧ final `sublist_of` scraped
  ∧ ∃ n, map src scraped `sublist_of` discovered (passes b) n.
Proof.
  intros Hnum Hrun final.
  destruct (patched_scrape_inv _ _ _ _ _ _ Hrun) as (Hnd & Hlen & Hdisc).
  destruct (dedup_spec num scraped) as (Hid & _ & Hsub).
  fold final in Hid, Hsub.
  split; [| split; [done | split; [| split; [done | done]]]].
  - apply sublist_length in Hsub. lia.
  - exact (sublist_NoDup _ _ Hnd (fmap_sublist src _ _ Hsub)).
Qed.

Lemma C2_crawl_candidates_witness :
  let final := dedup 5 Examples.two_candidates in
  Z.of_nat (length final) ≤ 5
  ∧ NoDup (map id final)
  ∧ NoDup (map src final)
  ∧ final `sublist_of` Examples.two_candidates
  ∧ ∃ n, map src Examples.two_candidates `sublist_of`
         discovered (passes (Examples.static_browser Examples.two_pins)) n.
Proof.
  apply (C2_crawl_candidates Examples.int_decimal 5 false
           (Examples.static_browser Examples.two_pins) 20 Examples.two_candidates).
  - lia.
  - vm_compute. reflexivity.
Defined.

(** A pin shown by its thumbnail and by its full-size URL is one
    candidate. *)
Example crawl_two_pins :
  patched_scrape Examples.int_decimal 5 false 20 (Examples.static_browser Examples.two_pins)
  = Some (Ok Examples.two_candidates).
Proof. vm_compute. reflexivity. Qed.

(** C10. Every candidate of the crawl comes from an image that a pass
    showed with a [src] containing [/236x/], and its [src] is that URL with
    [/236x/] replaced by [/originals/]; an image whose [src] lacks the marker
    leaves the scan as it found it. *)
Theorem C10_thumbnail_marker (int : string → option Z) (num : Z) (ensure_alt : bool)
    (b : browser) (fuel : nat) (scraped : list PinterestMedia) :
  patched_scrape int num ensure_alt fuel b = Some (Ok scraped) →
  (∀ m, m ∈ scraped →
     ∃ i im s, im ∈ pass_images (passes b i) ∧ get_src im = Ok (Some s) ∧
               contains thumbnail s = true ∧ src m = replace thumbnail originals s)
  ∧ (∀ pin_id href im rest u l a s,
       get_alt im = Ok a → get_src im = Ok (Some s) → contains thumbnail s = false →
       scan_images int num ensure_alt pin_id href (im :: rest) u l =
       scan_images int num ensure_alt pin_id href rest u l).
Proof.
  intros Hrun. split.
  - destruct (patched_scrape_inv _ _ _ _ _ _ Hrun) as (_ & _ & n & Hsub).
    intros m Hm.
    assert (src m ∈ discovered (passes b) n) as Hd.
    { eapply elem_of_sublist; [| exact Hsub]. by apply (list_elem_of_fmap_2 src). }
    by apply discovered_elem in Hd.
  - intros pin_id href im rest u l a s Ha Hs Hc. simpl. rewrite Ha, Hs, Hc.
    rewrite andb_false_r. by destruct (ensure_alt && blank a).
Qed.

Lemma C10_thumbnail_marker_witness :
  (∀ m, m ∈ Examples.two_candidates →
     ∃ i im s, im ∈ pass_images (passes (Examples.static_browser Examples.two_pins) i) ∧
               get_src im = Ok (Some s) ∧
               contains thumbnail s = true ∧ src m = replace thumbnail originals s)
  ∧ (∀ pin_id href im rest u l a s,
       get_alt im = Ok a → get_src im = Ok (Some s) → contains thumbnail s = false →
       scan_images Examples.int_decimal 5 false pin_id href (im :: rest) u l =
       scan_images Examples.int_decimal 5 false pin_id href rest u l).
Proof.
  apply (C10_thumbnail_marker Examples.int_decimal 5 false
           (Examples.static_browser Examples.two_pins) 20 Examples.two_candidates).
  vm_compute. reflexivity.
Defined.

(** *** Stall counter and pass ceiling *)

Lemma while_loop_stale_forever int num ensure_alt fuel i :
  while_loop int num ensure_alt fuel (λ _, Examples.stale_pass) i crawl_init = None.
Proof. revert i. induction fuel as [| fuel IH]; intros i; [done |]. simpl. apply IH. Qed.




(** *** Socket errors *)

(** C7, as stated, fails: the socket error that the first load-more attempt
    raises does not end the loop, and the crawl returns more than had been
    collected when it was raised. *)
Lemma C7_counterexample_load_more :
  load_more (passes Examples.flaky_browser 0) = Raise OSError
  ∧ (∃ c, loop_body Examples.int_decimal 5 false (passes Examples.flaky_browser 0) crawl_init
          = Next c
          ∧ imgs_data c = take 1 Examples.two_candidates)
  ∧ patched_scrape Examples.int_decimal 5 false 20 Examples.flaky_browser
    = Some (Ok Examples.two_candidates).
Proof.
  split; [done |]. split.
  - eexists. split; [vm_compute; reflexivity | reflexivity].
  - vm_compute. reflexivity.
Qed.

(** C7, amended. A socket error never reaches the caller of
    [patched_scrape]. Raised by the navigation it yields the empty list;
    raised while the containers are looked up or scanned, or by the scroll,
    it ends the loop in that iteration with the candidates collected up to
    then. Raised by the load-more attempt it is swallowed and the iteration
    goes on as if the button had been clicked. *)
Theorem C7_socket_errors (int : string → option Z) (num : Z) (ensure_alt : bool)
    (b : browser) (fuel : nat) :
  (∀ e, patched_scrape int num ensure_alt fuel b = Some (Raise e) → is_OSError e = false)
  ∧ (∀ e, navigate b = Raise e → is_OSError e = true →
          patched_scrape int num ensure_alt fuel b = Some (Ok []))
  ∧ (∀ p c e, find_divs p = Raise e → is_OSError e = true →
              loop_body int num ensure_alt p c = Exit c SocketError)
  ∧ (∀ p c divs u l e,
       find_divs p = Ok divs →
       scan_divs int num ensure_alt divs (unique_results c) (imgs_data c) = (u, l, Some e) →
       is_OSError e = true →
       ∃ c', loop_body int num ensure_alt p c = Exit c' SocketError ∧ imgs_data c' = l)
  ∧ (∀ p c divs u l e,
       find_divs p = Ok divs →
       scan_divs int num ensure_alt divs (unique_results c) (imgs_data c) = (u, l, None) →
       page_down p = Raise e → is_OSError e = true →
       ∃ c' why, loop_body int num ensure_alt p c = Exit c' why ∧ imgs_data c' = l
                 ∧ (why = SocketError ∨ why = Stall))
  ∧ (∀ i c c' fuel', scroll_count c < 800 →
       loop_body int num ensure_alt (passes b i) c = Exit c' SocketError →
       while_loop int num ensure_alt (S fuel') (passes b) i c = Some (c', S i, SocketError))
  ∧ (∀ c n, navigate b = Ok () →
       while_loop int num ensure_alt fuel (passes b) 0 crawl_init = Some (c, n, SocketError) →
       patched_scrape int num ensure_alt fuel b = Some (Ok (imgs_data c)))
  ∧ (∀ p c,
       loop_body int num ensure_alt p c =
       loop_body int num ensure_alt
         {| find_divs := find_divs p; page_down := page_down p; load_more := Ok () |} c).
Proof.
  assert (Hsock : ∀ e c, is_OSError e = true → handle e c = Exit c SocketError).
  { intros e c He. unfold handle. rewrite He. by destruct e. }
  split; [| split; [| split; [| split; [| split; [| split; [| split]]]]]].
  - intros e. unfold patched_scrape. destruct (navigate b) as [[] | e0].
    + destruct (while_loop _ _ _ _ _ _ _) as [[[c n] why] |] eqn:Hrun; [| done].
      destruct why; try done. intros [= <-]. by eapply while_loop_propagated.
    + destruct (is_OSError e0) eqn:H0; [done | by intros [= <-]].
  - intros e Hnav He. unfold patched_scrape. by rewrite Hnav, He.
  - intros p c e Hfd He. unfold loop_body. rewrite Hfd. by apply Hsock.
  - intros p c divs u l e Hfd Hscan He. unfold loop_body. rewrite Hfd, Hscan.
    eexists. split; [by apply Hsock | done].
  - intros p c divs u l e Hfd Hscan Hpd He. unfold loop_body. rewrite Hfd, Hscan, Hpd.
    destruct (10 <=? _).
    + eexists _, _. split; [done |]. split; [done | by right].
    + eexists _, _. split; [by apply Hsock |]. split; [done | by left].
  - intros i c c' fuel' Hlt Hbody. simpl.
    apply Z.ltb_lt in Hlt. by rewrite Hlt, Hbody.
  - intros c n Hnav Hrun. unfold patched_scrape. by rewrite Hnav, Hrun.
  - intros p c. apply loop_body_load_more.
Qed.

(** ** The recursive pipeline *)

Lemma filter_resolution_length res_x res_y imgs :
  (length (filter_resolution res_x res_y imgs) ≤ length imgs)%nat.
Proof.
  unfold filter_resolution. destruct (_ || _); [| done].
  induction imgs as [| img rest IH]; simpl; [done |].
  destruct (resolution_ok res_x res_y img); simpl; lia.
Qed.

Lemma invocations_children url project_name d imgs children B :
  Forall (λ t, (invocations t ≤ B)%nat) children →
  (invocations (Run url project_name d imgs children) ≤ 1 + length children * B)%nat.
Proof.
  intros H. simpl. apply le_n_S.
  induction H as [| t ts Ht _ IH]; simpl; lia.
Qed.

Section PipelineProps.
Context {W : Type}
        (api_scrape : W → string → Z → W * outcome (list PinterestMedia))
        (cookies_missing : W → bool)
        (download : W → list PinterestMedia → string → W)
        (log_urls : W → string → list string → W)
        (write_cache : W → string → list PinterestMedia → W)
        (scrape_and_download : W → string → string → W).

#[local] Abbreviation scrape_images :=
  (Gui.scrape_images W api_scrape cookies_missing download log_urls write_cache
     scrape_and_download).
#[local] Abbreviation recurse_loop := (Gui.recurse_loop W).

(** The recursion loop calls once for each item that is not the seed, in
    order, and stops at the first call that raises. *)
Lemma recurse_loop_spec (call : W → PinterestMedia → W * run * outcome unit)
    (P : PinterestMedia → run → Prop) seed imgs w :
  (∀ w0 img, P img (call w0 img).1.2) →
  let result := recurse_loop call seed imgs w in
  (length result.1.2 ≤ length imgs)%nat
  ∧ Forall (λ t, ∃ img, P img t) result.1.2
  ∧ (result.2 = Ok () →
     Forall2 P (List.filter (λ img, negb (bool_decide (Some (str (id img)) = seed))) imgs)
             result.1.2).
Proof.
  intros HP. revert w. induction imgs as [| img rest IH]; intros w; simpl.
  { split; [done |]. split; [done |]. intros _. constructor. }
  case_bool_decide as Hseed; simpl.
  { destruct (IH w) as (Hlen & Hall & Hex). split; [lia |]. done. }
  pose proof (HP w img) as Hcall.
  destruct (call w img) as [[w1 t] [[] | e]]; simpl in *.
  - destruct (IH w1) as (Hlen & Hall & Hex).
    destruct (recurse_loop call seed rest w1) as [[w2 ts] r]; simpl in *.
    split; [lia |]. split; [constructor; eauto |].
    intros Hr. constructor; [done | by apply Hex].
  - split; [lia |]. split; [constructor; eauto |]. done.
Qed.

Lemma scrape_images_run depth w url project_name project_dir res_x res_y limit use_browser :
  let r := (scrape_images depth w url project_name project_dir res_x res_y limit use_browser).1.2 in
  run_url r = url ∧ run_project r = project_name ∧ run_depth r = depth.
Proof.
  destruct depth as [| depth]; simpl;
    repeat (case_match; simpl; try done).
Qed.

Lemma scrape_images_items depth w url project_name project_dir res_x res_y limit use_browser :
  let r := (scrape_images depth w url project_name project_dir res_x res_y limit use_browser).1.2 in
  Z.of_nat (length (run_imgs r)) ≤ Z.max 1 limit.
Proof.
  assert (∀ scraped_imgs,
            Z.of_nat (length (filter_resolution res_x res_y (dedup limit scraped_imgs)))
            ≤ Z.max 1 limit) as Hlen.
  { intros l. pose proof (filter_resolution_length res_x res_y (dedup limit l)).
    destruct (dedup_spec limit l) as (_ & ? & _). lia. }
  destruct depth as [| depth]; simpl.
  all: destruct (String.eqb url "" || String.eqb project_name ""); [simpl; lia |].
  all: destruct use_browser; [| destruct (cookies_missing w); simpl; lia].
  all: destruct (cookies_missing w); [simpl; lia |].
  all: destruct (api_scrape w url limit) as [w1 [scraped | e]]; [| simpl; lia].
  all: specialize (Hlen scraped).
  all: destruct (filter_resolution res_x res_y (dedup limit scraped)) as [| img imgs];
    [simpl; lia |].
  - exact Hlen.
  - destruct (recurse_loop _ _ _ _) as [[w4 children] [[] | e]]; exact Hlen.
Qed.

Lemma scrape_images_invocations depth w url project_name project_dir res_x res_y limit
    use_browser :
  (invocations
     (scrape_images depth w url project_name project_dir res_x res_y limit use_browser).1.2
   ≤ geometric (Z.to_nat (Z.max 1 limit)) depth)%nat.
Proof.
  revert w url project_name project_dir use_browser.
  induction depth as [| depth IH]; intros w url project_name project_dir use_browser.
  - pose proof (scrape_images_items O w url project_name project_dir res_x res_y limit
                  use_browser) as Hitems.
    simpl in *.
    destruct (String.eqb url "" || String.eqb project_name ""); [simpl; lia |].
    destruct use_browser; [| destruct (cookies_missing w); simpl; lia].
    destruct (cookies_missing w); [simpl; lia |].
    destruct (api_scrape w url limit) as [w1 [scraped | e]]; [| simpl; lia].
    destruct (filter_resolution res_x res_y (dedup limit scraped)); simpl; lia.
  - pose proof (scrape_images_items (S depth) w url project_name project_dir res_x res_y limit
                  use_browser) as Hitems.
    cbn [Gui.scrape_images] in *. cbn [geometric].
    set (B := geometric (Z.to_nat (Z.max 1 limit)) depth) in *.
    destruct (String.eqb url "" || String.eqb project_name ""); [simpl; lia |].
    destruct use_browser; [| destruct (cookies_missing w); simpl; lia].
    destruct (cookies_missing w); [simpl; lia |].
    destruct (api_scrape w url limit) as [w1 [scraped | e]]; [| simpl; lia].
    destruct (filter_resolution res_x res_y (dedup limit scraped)) as [| img imgs];
      [simpl; lia |].
    match goal with |- context [recurse_loop ?call ?seed ?l ?w0] =>
      pose proof (recurse_loop_spec call (λ _ t, (invocations t ≤ B)%nat) seed l w0) as Hloop;
      destruct (recurse_loop call seed l w0) as [[w4 children] r]
    end.
    destruct Hloop as (Hlen & Hall & _); [intros w0 img0; apply IH |].
    cbn [fst snd] in *.
    assert (Forall (λ t, (invocations t ≤ B)%nat) children) as Hall'.
    { eapply Forall_impl; [exact Hall |]. by intros t [_ ?]. }
    pose proof (invocations_children url project_name (S depth) (img :: imgs) children B Hall')
      as Hch.
    assert (length children ≤ Z.to_nat (Z.max 1 limit))%nat as Hfew.
    { destruct r; cbn [fst snd run_imgs] in Hitems; lia. }
    destruct r; cbn [fst snd]; nia.
Qed.


End PipelineProps.


(** The run on the pin page of pin 11: two items, one recursive call, for
    pin 12 and not for the seed. *)
Example scrape_pin_page_run :
  (Examples.scrape_pin_page 1).1.2 =
  Run Examples.pin_page "cats" 1 Examples.two_candidates
    [Run "https://se.pinterest.com/pin/12/visual-search/?cropSource=5&entrypoint=closeup_cta&rs=flashlight"
         "20251228_Test_12" 0 [] []].
Proof. vm_compute. reflexivity. Qed.

Import More.

(* ===================================================================== *)
(** * Further properties                                                 *)
(* ===================================================================== *)

(** ** The crawl loop *)

Section CrawlMore.
Context (int : string → option Z) (num : Z) (ensure_alt : bool).

#[local] Abbreviation scan_images := (Gui.scan_images int num ensure_alt).
#[local] Abbreviation scan_divs := (Gui.scan_divs int num ensure_alt).
#[local] Abbreviation loop_body := (Gui.loop_body int num ensure_alt).
#[local] Abbreviation while_loop := (Gui.while_loop int num ensure_alt).
#[local] Abbreviation patched_scrape := (Gui.patched_scrape int num ensure_alt).
#[local] Abbreviation fresh := (fresh_candidate ensure_alt).

Lemma scan_images_fresh pin_id href images u l u' l' r :
  Forall fresh l →
  scan_images pin_id href images u l = (u', l', r) → Forall fresh l'.
Proof.
  revert u l. induction images as [| im rest IH]; intros u l Hl Hscan; simpl in Hscan.
  { by injection Hscan as <- <- <-. }
  destruct (get_alt im) as [a | e]; [| by injection Hscan as <- <- <-].
  destruct (ensure_alt && blank a) eqn:Hblank; [by eapply IH |].
  destruct (get_src im) as [[s |] | e]; [| by eapply IH | by injection Hscan as <- <- <-].
  destruct (negb (String.eqb s "") && contains thumbnail s); [| by eapply IH].
  case_bool_decide; [by eapply IH |].
  destruct (int pin_id) as [n |]; [| by injection Hscan as <- <- <-].
  assert (Forall fresh (l ++ [new_media n (replace thumbnail originals s) a href])) as Hl'.
  { apply Forall_app. split; [done |]. apply Forall_singleton.
    repeat split; simpl; eauto.
    intros ->. by destruct (blank a). }
  destruct (num <=? _); [by injection Hscan as <- <- <- | by eapply IH].
Qed.

Lemma scan_divs_fresh divs u l u' l' r :
  Forall fresh l → scan_divs divs u l = (u', l', r) → Forall fresh l'.
Proof.
  revert u l. induction divs as [| d rest IH]; intros u l Hl Hscan; simpl in Hscan.
  { by injection Hscan as <- <- <-. }
  destruct (num <=? _); [by injection Hscan as <- <- <- |].
  destruct (find_images d) as [images | e]; [| by injection Hscan as <- <- <-].
  destruct (find_href d) as [href | e]; [| by injection Hscan as <- <- <-].
  destruct (get_pin_id d) as [[pin_id |] | e];
    [| by eapply IH | by injection Hscan as <- <- <-].
  destruct (String.eqb pin_id ""); [by eapply IH |].
  destruct (scan_images pin_id href images u l) as [[u1 l1] r1] eqn:Hi.
  pose proof (scan_images_fresh _ _ _ _ _ _ _ _ Hl Hi) as Hl1.
  destruct r1; [by injection Hscan as <- <- <- | by eapply IH].
Qed.

Lemma loop_body_fresh p c :
  Forall fresh (imgs_data c) → Forall fresh (imgs_data (step_crawl (loop_body p c))).
Proof.
  intros Hl. unfold Gui.loop_body, handle.
  destruct (find_divs p) as [divs | e].
  2: { destruct (is_StaleElementReferenceException e); [done |]. by destruct (is_OSError e). }
  destruct (scan_divs divs (unique_results c) (imgs_data c)) as [[u l] r] eqn:Hscan.
  pose proof (scan_divs_fresh _ _ _ _ _ _ Hl Hscan) as Hl'.
  destruct r as [e |].
  { destruct (is_StaleElementReferenceException e); [done |]. by destruct (is_OSError e). }
  destruct (10 <=? _); [done |].
  destruct (page_down p) as [[] | e]; [by destruct (load_more p) |].
  destruct (is_StaleElementReferenceException e); [done |]. by destruct (is_OSError e).
Qed.

Lemma while_loop_fresh b fuel i c c' n why :
  Forall fresh (imgs_data c) →
  while_loop fuel b i c = Some (c', n, why) → Forall fresh (imgs_data c').
Proof.
  revert i c. induction fuel as [| fuel IH]; intros i c Hl Hrun; [done |].
  simpl in Hrun. destruct (scroll_count c <? 800); [| by injection Hrun as <- <- <-].
  pose proof (loop_body_fresh (b i) c Hl) as Hl'.
  destruct (loop_body (b i) c) as [c1 | c1 why1]; [by eapply IH |].
  by injection Hrun as <- <- <-.
Qed.

(** X1. Every candidate that [patched_scrape] returns is as line 363
    builds it: resolution (0,0), no local path, no video stream, an integer
    id. *)
Theorem crawl_candidates_unmeasured (b : browser) (fuel : nat)
    (scraped : list PinterestMedia) :
  patched_scrape fuel b = Some (Ok scraped) →
  Forall (λ m, resolution m = (0, 0) ∧ local_path m = None ∧ video_stream m = false
               ∧ ∃ n, id m = IdInt n) scraped.
Proof.
  intros [-> | (c & n & why & Hrun & ->)]%patched_scrape_result; [done |].
  eapply Forall_impl.
  - eapply while_loop_fresh; [| exact Hrun]. done.
  - intros m (? & ? & ? & ? & _). done.
Qed.


(** X3. A target count of zero or less yields no candidate at all. *)
Theorem crawl_no_target (b : browser) (fuel : nat) (scraped : list PinterestMedia) :
  num ≤ 0 →
  patched_scrape fuel b = Some (Ok scraped) → scraped = [].
Proof.
  intros Hnum Hrun.
  destruct (patched_scrape_inv _ _ _ _ _ _ Hrun) as (_ & Hlen & _).
  destruct scraped; [done | simpl in Hlen; lia].
Qed.

(** Once the target is reached a scan returns at its first container. *)
Lemma scan_divs_full divs u l :
  num ≤ Z.of_nat (size u) → scan_divs divs u l = (u, l, None).
Proof.
  intros Hfull. destruct divs as [| d rest]; [done |]. simpl.
  apply Z.leb_le in Hfull. by rewrite Hfull.
Qed.

Lemma loop_body_full p c :
  num ≤ Z.of_nat (size (unique_results c)) →
  unique_results (step_crawl (loop_body p c)) = unique_results c
  ∧ imgs_data (step_crawl (loop_body p c)) = imgs_data c.
Proof.
  intros Hfull. unfold Gui.loop_body, handle.
  destruct (find_divs p) as [divs | e].
  2: { destruct (is_StaleElementReferenceException e); [done |]. by destruct (is_OSError e). }
  rewrite scan_divs_full by done.
  destruct (10 <=? _); [done |].
  destruct (page_down p) as [[] | e]; [by destruct (load_more p) |].
  destruct (is_StaleElementReferenceException e); [done |]. by destruct (is_OSError e).
Qed.

Lemma while_loop_full b fuel i c c' n why :
  num ≤ Z.of_nat (size (unique_results c)) →
  while_loop fuel b i c = Some (c', n, why) → imgs_data c' = imgs_data c.
Proof.
  revert i c. induction fuel as [| fuel IH]; intros i c Hfull Hrun; [done |].
  simpl in Hrun. destruct (scroll_count c <? 800); [| by injection Hrun as <- <- <-].
  destruct (loop_body_full (b i) c Hfull) as [Hu Hl].
  destruct (loop_body (b i) c) as [c1 | c1 why1]; simpl in *.
  - rewrite <- Hl. eapply IH; [| exact Hrun]. by rewrite Hu.
  - by injection Hrun as <- <- <-.
Qed.


End CrawlMore.

Lemma crawl_candidates_unmeasured_witness :
  Forall (λ m, resolution m = (0, 0) ∧ local_path m = None ∧ video_stream m = false
               ∧ ∃ n, id m = IdInt n) Examples.two_candidates.
Proof.
  apply (crawl_candidates_unmeasured Examples.int_decimal 5 false
           (Examples.static_browser Examples.two_pins) 20).
  vm_compute. reflexivity.
Defined.


Lemma crawl_no_target_witness : @nil PinterestMedia = [].
Proof.
  apply (crawl_no_target Examples.int_decimal 0 false
           (Examples.static_browser Examples.two_pins) 20).
  - lia.
  - vm_compute. reflexivity.
Defined.


(** ** The candidate filters of [scrape_images] *)

Lemma dedup_loop_first limit scraped_imgs scraped_ids imgs scraped :
  dedup_loop limit scraped_imgs scraped_ids imgs scraped =
  imgs ++ take (Z.to_nat (Z.max 1 (limit - scraped))) (first_by_id scraped_imgs scraped_ids).
Proof.
  revert scraped_ids imgs scraped.
  induction scraped_imgs as [| img rest IH]; intros ids imgs scraped; simpl.
  { by rewrite take_nil, app_nil_r. }
  case_bool_decide; [apply IH |].
  destruct (limit <=? scraped + 1) eqn:Hfull.
  - apply Z.leb_le in Hfull.
    replace (Z.to_nat (Z.max 1 (limit - scraped))) with 1%nat by lia.
    simpl. by rewrite take_0.
  - apply Z.leb_gt in Hfull. rewrite IH, <- app_assoc. simpl.
    replace (Z.to_nat (Z.max 1 (limit - scraped)))
      with (S (Z.to_nat (Z.max 1 (limit - (scraped + 1))))) by lia.
    done.
Qed.

(** X5. The id filter keeps the first item of every id and stops after
    [max 1 limit] items: with a limit of zero or less it still keeps one
    item of a non-empty crawl. *)
Theorem dedup_first_by_id (limit : Z) (scraped_imgs : list PinterestMedia) :
  dedup limit scraped_imgs =
  take (Z.to_nat (Z.max 1 limit)) (first_by_id scraped_imgs ∅).
Proof. unfold dedup. rewrite dedup_loop_first. simpl. by rewrite Z.sub_0_r. Qed.

Lemma first_by_id_NoDup l seen :
  NoDup (map id l) → (∀ m, m ∈ l → id m ∉ seen) → first_by_id l seen = l.
Proof.
  revert seen. induction l as [| m rest IH]; intros seen Hnd Hseen; simpl; [done |].
  apply NoDup_cons in Hnd as [Hm Hnd].
  case_bool_decide as Hin0; [by destruct (Hseen m (list_elem_of_here _ _)) |].
  f_equal. apply IH; [done |].
  intros m' Hm' [Heq%elem_of_singleton | Hin]%elem_of_union.
  - apply Hm. rewrite <- Heq. by apply (list_elem_of_fmap_2 id).
  - apply (Hseen m'); [by right | done].
Qed.

(** X6. A crawl whose items have distinct ids passes the id filter
    unchanged up to the limit, so with [length < limit] nothing is lost. *)
Theorem dedup_distinct (limit : Z) (scraped_imgs : list PinterestMedia) :
  NoDup (map id scraped_imgs) →
  dedup limit scraped_imgs = take (Z.to_nat (Z.max 1 limit)) scraped_imgs
  ∧ (Z.of_nat (length scraped_imgs) ≤ limit → dedup limit scraped_imgs = scraped_imgs).
Proof.
  intros Hnd. unfold dedup. rewrite dedup_loop_first, Z.sub_0_r. simpl.
  rewrite first_by_id_NoDup; [| done | intros m _; apply not_elem_of_empty].
  split; [done |]. intros Hlen. apply take_ge. lia.
Qed.

Lemma dedup_distinct_witness :
  dedup 5 Examples.two_candidates = take (Z.to_nat (Z.max 1 5)) Examples.two_candidates
  ∧ (Z.of_nat (length Examples.two_candidates) ≤ 5 →
     dedup 5 Examples.two_candidates = Examples.two_candidates).
Proof.
  apply (dedup_distinct 5 Examples.two_candidates).
  apply (bool_decide_unpack (NoDup (map id Examples.two_candidates))). vm_compute. reflexivity.
Defined.

Lemma filter_resolution_unmeasured res_x res_y imgs :
  0 < res_x ∨ 0 < res_y →
  Forall (λ m, resolution m = (0, 0)) imgs →
  filter_resolution res_x res_y imgs = [].
Proof.
  intros Hpos Hall. unfold filter_resolution.
  assert ((0 <? res_x) || (0 <? res_y) = true) as ->.
  { apply orb_true_iff. rewrite !Z.ltb_lt. done. }
  induction Hall as [| m rest Hm _ IH]; simpl; [done |].
  unfold resolution_ok. rewrite Hm. simpl.
  assert ((res_x <=? 0) && (res_y <=? 0) = false) as ->; [| done].
  apply andb_false_iff. rewrite !Z.leb_gt. lia.
Qed.

Section PipelineMore.
Context {W : Type}
        (api_scrape : W → string → Z → W * outcome (list PinterestMedia))
        (cookies_missing : W → bool)
        (download : W → list PinterestMedia → string → W)
        (log_urls : W → string → list string → W)
        (write_cache : W → string → list PinterestMedia → W)
        (scrape_and_download : W → string → string → W).

#[local] Abbreviation scrape_images :=
  (Gui.scrape_images W api_scrape cookies_missing download log_urls write_cache
     scrape_and_download).


End PipelineMore.


(** ** Pin ids in URLs *)

Lemma digits_then_slash_sound s d :
  digits_then_slash s = Some d →
  d ≠ "" ∧ all_digits d = true ∧ ∃ post, s = d +:+ "/" +:+ post.
Proof.
  revert d. induction s as [| c s IH]; intros d; simpl; [done |].
  destruct (is_digit c) eqn:Hc; [| done].
  assert (Hrec : match digits_then_slash s with
                 | Some d0 => Some (String c d0)
                 | None => None
                 end = Some d →
                 d ≠ "" ∧ all_digits d = true ∧ ∃ post, String c s = d +:+ "/" +:+ post).
  { destruct (digits_then_slash s) as [d0 |]; [| done]. intros [= <-].
    destruct (IH d0 eq_refl) as (_ & Hd & post & ->).
    split; [done |]. split; [simpl; by rewrite Hc, Hd |]. by exists post. }
  destruct s as [| c' s']; [done |].
  destruct (Ascii.eqb c' "/") eqn:Hslash.
  - apply Ascii.eqb_eq in Hslash as ->. intros [= <-].
    split; [done |]. split; [simpl; by rewrite Hc |]. by exists s'.
  - intros H. apply Hrec. revert H.
    destruct c' as [[] [] [] [] [] [] [] []]; try done.
Qed.

Lemma prefix_pin s :
  String.prefix "/pin/" s = true → s = "/pin/" +:+ drop_chars 5 s.
Proof.
  intros H.
  do 5 (destruct s as [| ? s]; cbn [String.prefix] in H; [done |];
        destruct (ascii_dec _ _) as [<- |]; [| done]).
  done.
Qed.

Lemma search_pin_sound s d :
  search_pin s = Some d →
  d ≠ "" ∧ all_digits d = true ∧
  ∃ pre post, s = pre +:+ "/pin/" +:+ d +:+ "/" +:+ post.
Proof.
  induction s as [| c s IH].
  { simpl. done. }
  assert (Hrest : search_pin s = Some d →
            d ≠ "" ∧ all_digits d = true ∧
            ∃ pre post, String c s = pre +:+ "/pin/" +:+ d +:+ "/" +:+ post).
  { intros (? & ? & pre & post & ->)%IH. split; [done |]. split; [done |].
    by exists (String c pre), post. }
  cbn [search_pin].
  destruct (String.prefix "/pin/" (String c s)) eqn:Hpre; [| by apply Hrest].
  destruct (digits_then_slash (drop_chars 5 (String c s))) as [d0 |] eqn:Hd; [| by apply Hrest].
  intros [= <-]. apply digits_then_slash_sound in Hd as (? & ? & post & Hpost).
  split; [done |]. split; [done |]. exists "", post.
  rewrite (prefix_pin _ Hpre), Hpost. done.
Qed.



Lemma digits_then_slash_complete d post :
  d ≠ "" → all_digits d = true → digits_then_slash (d +:+ "/" +:+ post) = Some d.
Proof.
  induction d as [| c d IH]; [done |]. intros _ Hd. simpl in Hd.
  apply andb_true_iff in Hd as [Hc Hd].
  change (String c d +:+ "/" +:+ post) with (String c (d +:+ "/" +:+ post)).
  cbn [digits_then_slash]. rewrite Hc.
  destruct d as [| c' d'].
  - done.
  - rewrite IH by done.
    change (String c' d' +:+ "/" +:+ post) with (String c' (d' +:+ "/" +:+ post)).
    simpl in Hd. apply andb_true_iff in Hd as [Hc' _].
    destruct c' as [[] [] [] [] [] [] [] []]; try done.
Qed.

Lemma prefix_empty t : String.prefix "" t = true.
Proof. by destruct t. Qed.

Lemma original_pin_id_visual_search t d :
  digits_then_slash t = Some d →
  original_pin_id ("https://se.pinterest.com/pin/" +:+ t) = Some d.
Proof.
  intros H. unfold original_pin_id.
  cbv beta iota delta [String.append]. fold String.append.
  cbn -[digits_then_slash]. by rewrite prefix_empty, H.
Qed.

Lemma pretty_N_go_digits x s :
  all_digits s = true → all_digits (pretty_N_go x s) = true.
Proof.
  revert s. induction (N.lt_wf_0 x) as [x _ IH]; intros s Hs.
  assert (x = 0 ∨ 0 < x)%N as [-> | Hpos] by lia.
  - by rewrite pretty_N_go_0.
  - rewrite pretty_N_go_step by done. apply IH; [by apply N.div_lt |].
    simpl. rewrite Hs, andb_true_r.
    unfold pretty_N_char. by repeat case_match.
Qed.

Lemma pretty_N_go_nonempty x s : s ≠ "" → pretty_N_go x s ≠ "".
Proof.
  revert s. induction (N.lt_wf_0 x) as [x _ IH]; intros s Hs.
  assert (x = 0 ∨ 0 < x)%N as [-> | Hpos] by lia.
  - by rewrite pretty_N_go_0.
  - rewrite pretty_N_go_step by done. apply IH; [by apply N.div_lt | done].
Qed.

Lemma str_digits n :
  0 ≤ n → str (IdInt n) ≠ "" ∧ all_digits (str (IdInt n)) = true.
Proof.
  intros Hn. unfold str, pretty, pretty_Z. destruct n as [| p | p]; [done | | lia].
  unfold pretty, pretty_positive, pretty, pretty_N.
  destruct (decide (N.pos p = 0%N)); [done |].
  split.
  - rewrite pretty_N_go_step by lia. by apply pretty_N_go_nonempty.
  - by apply pretty_N_go_digits.
Qed.

(** X9. The visual-search URL that the recursion builds for an item with
    a non-negative integer id leads back to that id: the recursive run
    reads the item's id as its seed pin id. *)
Theorem new_url_pin_id (img : PinterestMedia) (n : Z) :
  id img = IdInt n → 0 ≤ n →
  original_pin_id (new_url img) = Some (str (id img)).
Proof.
  intros Hid Hn. unfold new_url. rewrite Hid.
  destruct (str_digits n Hn) as [Hne Hd].
  apply original_pin_id_visual_search. by apply digits_then_slash_complete.
Qed.

Lemma new_url_pin_id_witness :
  original_pin_id (new_url Examples.candidate7) = Some (str (id Examples.candidate7)).
Proof.
  apply (new_url_pin_id Examples.candidate7 7).
  - reflexivity.
  - lia.
Defined.

(** ** The recursion loop *)

Section RecursionMore.
Context {W : Type} (call : W → PinterestMedia → W * run * outcome unit)
        (seed : option string).

#[local] Abbreviation recurse_loop := (Gui.recurse_loop W call seed).
#[local] Abbreviation expanded :=
  (List.filter (λ img, negb (bool_decide (Some (str (id img)) = seed)))).

(** X10. The recursion loop calls for the items that are not the seed, in
    order, one call each; it goes through all of them unless a call raises,
    and then that call is the last one made and its exception is the
    loop's. *)
Theorem recurse_loop_calls (imgs : list PinterestMedia) (w : W) :
  let result := recurse_loop imgs w in
  Forall2 (λ img t, ∃ w0, t = (call w0 img).1.2)
          (take (length result.1.2) (expanded imgs)) result.1.2
  ∧ (result.2 = Ok () → length result.1.2 = length (expanded imgs))
  ∧ (∀ e, result.2 = Raise e →
       ∃ w0 img, expanded imgs !! (length result.1.2 - 1)%nat = Some img
                 ∧ (call w0 img).2 = Raise e ∧ last result.1.2 = Some (call w0 img).1.2).
Proof.
  revert w. induction imgs as [| img rest IH]; intros w; simpl.
  { split; [constructor |]. split; [done | done]. }
  case_bool_decide as Hseed; simpl; [apply IH |].
  destruct (call w img) as [[w1 t] [[] | e]] eqn:Hcall; simpl.
  - specialize (IH w1).
    destruct (Gui.recurse_loop W call seed rest w1) as [[w2 ts] r]; simpl in *.
    destruct IH as (Hall & Hok & Hraise).
    split; [| split].
    + constructor; [| done]. exists w. by rewrite Hcall.
    + intros Hr. by rewrite Hok.
    + intros e He. destruct (Hraise e He) as (w0 & img0 & Hlook & Hc & Hlast).
      exists w0, img0. destruct ts as [| t0 ts']; [done |].
      simpl in *. rewrite Nat.sub_0_r in Hlook. done.
  - split; [| split].
    + constructor; [| constructor]. exists w. by rewrite Hcall.
    + done.
    + intros e0 [= <-]. exists w, img. by rewrite Hcall.
Qed.

End RecursionMore.

(** ** The registry filter, further *)

Lemma filter_loop_repaired fs loaded media registry to_dl :
  repaired fs loaded registry →
  repaired fs loaded (registry_after (filter_loop fs media registry to_dl)).
Proof.
  revert registry to_dl. induction media as [| item rest IH]; intros registry to_dl Hr; simpl.
  - done.
  - destruct (registry !! id item) as [e |] eqn:He; simpl.
    + destruct (fs_exists fs (registered_path e)) eqn:Hx; simpl.
      * by apply IH.
      * apply IH. by eapply repaired_delete.
    + by apply IH.
Qed.

Lemma repaired_local fs loaded registry item :
  repaired fs loaded registry →
  local_from_registry fs registry item = local_from_registry fs loaded item.
Proof.
  intros Hr. unfold local_from_registry.
  destruct (Hr (id item)) as [-> | [-> (e & -> & He)]]; [done | by rewrite He].
Qed.

Lemma filter_left_exists fs registry media item e :
  item ∈ media →
  registry_after (download_media_filter fs registry media) !! id item = Some e →
  fs_exists fs (registered_path e) = true.
Proof.
  intros Hin He.
  assert (repaired fs registry (registry_after (download_media_filter fs registry media)))
    as Hrep by apply filter_loop_repaired, repaired_refl.
  destruct (fs_exists fs (registered_path e)) eqn:Hx; [done |].
  assert (registry !! id item = Some e) as Hreg.
  { destruct (Hrep (id item)) as [<- | [Hn _]]; [done | congruence]. }
  assert (stale fs registry item = true) as Hst by (unfold stale; by rewrite Hreg, Hx).
  pose proof (filter_loop_deletes_stale fs media registry [] item Hin Hst) as Hnone.
  unfold download_media_filter in He. congruence.
Qed.

(** X11. The filter only removes entries: what is left of the registry is
    a part of the loaded one, and every entry left for an item of the list
    has its file on disk. *)
Theorem filter_registry_shrinks (fs : filesystem) (registry : gmap pyid entry)
    (media : list PinterestMedia) :
  let r := download_media_filter fs registry media in
  registry_after r ⊆ registry
  ∧ ∀ item e, item ∈ media → registry_after r !! id item = Some e →
              fs_exists fs (registered_path e) = true.
Proof.
  intros r.
  assert (repaired fs registry (registry_after r)) as Hrep.
  { apply filter_loop_repaired, repaired_refl. }
  split.
  - apply map_subseteq_spec. intros k e Hk.
    destruct (Hrep k) as [<- | [Hn _]]; [done | congruence].
  - intros item e Hin He. by eapply filter_left_exists.
Qed.

(** X12. Filtering again with the repaired registry changes nothing: the
    same items are queued, the same local paths are set, and the registry
    stays as the first pass left it. *)
Theorem filter_again (fs : filesystem) (registry : gmap pyid entry)
    (media : list PinterestMedia) :
  let r := download_media_filter fs registry media in
  let r' := download_media_filter fs (registry_after r) media in
  registry_after r' = registry_after r
  ∧ to_download r' = to_download r
  ∧ media_after r' = media_after r.
Proof.
  intros r r'.
  assert (repaired fs registry (registry_after r)) as Hrep.
  { apply filter_loop_repaired, repaired_refl. }
  split; [| split].
  - apply map_eq. intros k. apply filter_loop_keeps.
    intros item Hin _. unfold stale.
    destruct (registry_after r !! id item) as [e |] eqn:He; [| done].
    by rewrite (filter_left_exists fs registry media item e Hin He).
  - unfold r', r, download_media_filter.
    rewrite (filter_loop_to_download fs (registry_after r)) by apply repaired_refl.
    rewrite (filter_loop_to_download fs registry) by apply repaired_refl.
    simpl. apply filter_ext. intros item.
    by rewrite (repaired_satisfied fs registry (registry_after r) item Hrep).
  - unfold r', r, download_media_filter.
    rewrite (filter_loop_media_after fs (registry_after r)) by apply repaired_refl.
    rewrite (filter_loop_media_after fs registry) by apply repaired_refl.
    apply map_ext. intros item. by apply repaired_local.
Qed.

(** X13. When nothing is left to download, [download_media] returns at
    line 82 with every item pointing to a file that exists, and the
    registry is as it was loaded. *)
Theorem filter_all_downloaded (fs : filesystem) (registry : gmap pyid entry)
    (media : list PinterestMedia) :
  let r := download_media_filter fs registry media in
  to_download r = [] →
  Forall (λ m, ∃ p, local_path m = Some p ∧ fs_exists fs p = true) (media_after r)
  ∧ registry_after r = registry.
Proof.
  intros r Hnone.
  assert (∀ item, item ∈ media → satisfied fs registry item = true) as Hsat.
  { intros item Hin. destruct (satisfied fs registry item) eqn:Hs; [done |].
    assert (item ∈ to_download r) as Hq.
    { unfold r, download_media_filter.
      rewrite (filter_loop_to_download fs registry) by apply repaired_refl. simpl.
      apply list_elem_of_In, filter_In. split; [by apply list_elem_of_In | by rewrite Hs]. }
    rewrite Hnone in Hq. by apply elem_of_nil in Hq. }
  split.
  - unfold r, download_media_filter.
    rewrite (filter_loop_media_after fs registry) by apply repaired_refl.
    apply Forall_forall. intros m (item & -> & Hin)%list_elem_of_fmap.
    specialize (Hsat item Hin). unfold satisfied in Hsat. unfold local_from_registry.
    destruct (registry !! id item) as [e |]; [| done]. rewrite Hsat. simpl. eauto.
  - apply map_eq. intros k. apply filter_loop_keeps.
    intros item Hin _. specialize (Hsat item Hin). unfold satisfied in Hsat. unfold stale.
    destruct (registry !! id item) as [e |]; [by rewrite Hsat | done].
Qed.

Lemma filter_all_downloaded_witness :
  let r := download_media_filter Examples.fs_with_photo Examples.registry7
             [Examples.candidate7] in
  Forall (λ m, ∃ p, local_path m = Some p ∧ fs_exists Examples.fs_with_photo p = true)
         (media_after r)
  ∧ registry_after r = Examples.registry7.
Proof.
  apply (filter_all_downloaded Examples.fs_with_photo Examples.registry7 [Examples.candidate7]).
  vm_compute. reflexivity.
Defined.

(** X14. Membership in the registry is by key, and an integer is not a
    string: against a registry whose keys are all strings, as a JSON object
    has them, no item with an integer id is taken for downloaded. Every
    item is queued and the registry is left alone. *)
Theorem filter_string_keys (fs : filesystem) (registry : gmap pyid entry)
    (media : list PinterestMedia) :
  (∀ k, is_Some (registry !! k) → ∃ s, k = IdStr s) →
  Forall (λ m, ∃ n, id m = IdInt n) media →
  let r := download_media_filter fs registry media in
  to_download r = media ∧ media_after r = media ∧ registry_after r = registry.
Proof.
  intros Hkeys Hids r.
  assert (∀ item, item ∈ media → registry !! id item = None) as Hmiss.
  { intros item Hin. rewrite Forall_forall in Hids. destruct (Hids item Hin) as [n Hn].
    destruct (registry !! id item) as [e |] eqn:He; [| done].
    destruct (Hkeys (id item)) as [s Hs]; [by rewrite He | congruence]. }
  unfold r, download_media_filter. split; [| split].
  - rewrite (filter_loop_to_download fs registry) by apply repaired_refl. simpl.
    clear r. induction media as [| item rest IH]; [done |]. simpl.
    unfold satisfied at 1. rewrite (Hmiss item) by by left. simpl. f_equal.
    apply IH; [by inversion Hids | intros i Hi; apply Hmiss; by right].
  - rewrite (filter_loop_media_after fs registry) by apply repaired_refl.
    clear r. induction media as [| item rest IH]; [done |]. simpl.
    unfold local_from_registry at 1. rewrite (Hmiss item) by by left. f_equal.
    apply IH; [by inversion Hids | intros i Hi; apply Hmiss; by right].
  - apply map_eq. intros k. apply filter_loop_keeps.
    intros item Hin _. unfold stale. by rewrite (Hmiss item Hin).
Qed.

Lemma filter_string_keys_witness :
  let r := download_media_filter Examples.fs_with_photo Examples.registry7_loaded
             [Examples.candidate7] in
  to_download r = [Examples.candidate7] ∧ media_after r = [Examples.candidate7]
  ∧ registry_after r = Examples.registry7_loaded.
Proof.
  apply (filter_string_keys Examples.fs_with_photo Examples.registry7_loaded
           [Examples.candidate7]).
  - intros k [e He]. unfold Examples.registry7_loaded in He.
    apply lookup_singleton_Some in He as [<- _]. by exists "7".
  - repeat constructor. by exists 7.
Defined.

(** ** The registry file, further *)

Section RegistryMore.
Context (json_loads : string → outcome (gmap pyid entry))
        (json_dumps : gmap pyid entry → string).


(** X16. What [_save_downloaded_registry] has written is what the next
    [_load_downloaded_registry] parses: both use the file [downloaded.json]
    beside the output directory. *)
Theorem save_then_load (fs fs' : filesystem) (output_dir : string)
    (registry registry' : gmap pyid entry) :
  _save_downloaded_registry json_dumps fs output_dir registry = (Ok fs', []) →
  registry_path output_dir ∉ read_denied fs →
  utf8_valid (json_dumps registry) = true →
  json_loads (json_dumps registry) = Ok registry' →
  files fs' !! registry_path output_dir = Some (json_dumps registry)
  ∧ _load_downloaded_registry json_loads fs' output_dir = (Ok registry', []).
Proof.
  unfold _save_downloaded_registry. intros Hsave Hread Hutf Hloads.
  destruct (fs_write fs (registry_path output_dir) (json_dumps registry)) as [fs1 | e] eqn:Hw.
  - injection Hsave as <-.
    unfold fs_write in Hw. destruct (_ || _); [done |]. injection Hw as <-. simpl.
    split; [apply lookup_insert_eq |].
    unfold _load_downloaded_registry, fs_exists, fs_read, json_load. simpl.
    rewrite lookup_insert_eq. simpl.
    rewrite bool_decide_eq_false_2 by done. by rewrite Hutf, Hloads.
  - by destruct (is_OSError e).
Qed.

(** A save that fails changes no file and leaves one error in the log. *)
Lemma save_failure (fs fs' : filesystem) (output_dir : string)
    (registry : gmap pyid entry) (log : list log_record) :
  _save_downloaded_registry json_dumps fs output_dir registry = (Ok fs', log) →
  log ≠ [] → fs' = fs ∧ ∃ msg, log = [Error msg].
Proof.
  unfold _save_downloaded_registry.
  destruct (fs_write fs _ _) as [fs1 | e]; [by intros [= <- <-] |].
  destruct (is_OSError e); [| done]. intros [= <- <-] _. eauto.
Qed.

End RegistryMore.

Lemma save_then_load_witness :
  let fs' := {| files := <[ "downloads/downloaded.json" := "downloads/cats/7.jpg" ]>
                           (files Examples.fs_with_photo);
                dirs := dirs Examples.fs_with_photo;
                read_denied := ∅; write_denied := ∅ |} in
  files fs' !! registry_path "downloads/cats" = Some (Examples.dumps7 Examples.registry7)
  ∧ _load_downloaded_registry Examples.loads7 fs' "downloads/cats"
    = (Ok {[ IdStr "7" := {| entry_path := Some "downloads/cats/7.jpg";
                             entry_downloaded_at := None |} ]}, []).
Proof.
  intros fs'.
  apply (save_then_load Examples.loads7 Examples.dumps7 Examples.fs_with_photo fs'
           "downloads/cats" Examples.registry7
           {[ IdStr "7" := {| entry_path := Some "downloads/cats/7.jpg";
                              entry_downloaded_at := None |} ]}).
  - vm_compute. reflexivity.
  - apply not_elem_of_empty.
  - vm_compute. reflexivity.
  - vm_compute. reflexivity.
Defined.

(** ** Sidecar captions, further *)

Section CaptionsMore.
Context (to_json : PinterestMedia → string) (output_dir extension : string).

#[local] Abbreviation loop := (caption_loop to_json output_dir extension).
#[local] Abbreviation sidecar := (caption_path output_dir extension).

(** The loop passes over an item that has no local path, whose sidecar
    exists, or that has no alt text in txt mode. *)
Lemma caption_loop_settled images fs :
  (∀ img lp, img ∈ images → local_path img = Some lp →
             (extension = "txt" → truthy (alt img) = true) →
             fs_exists fs (sidecar lp) = true) →
  loop images fs = (fs, Ok ()).
Proof.
  induction images as [| img rest IH]; intros Hall; [done |].
  assert (loop rest fs = (fs, Ok ())) as Hrest.
  { apply IH. intros img0 lp Hin. apply Hall. by right. }
  simpl. destruct (local_path img) as [lp |] eqn:Hlp; [| done].
  destruct (fs_exists fs (sidecar lp)) eqn:Hx; [done |].
  destruct (String.eqb extension "txt") eqn:Ht.
  - apply String.eqb_eq in Ht. subst extension. simpl.
    destruct (alt img) as [a |] eqn:Ha; [| done].
    destruct (String.eqb a "") eqn:Hea; [done |]. simpl.
    rewrite (Hall img lp) in Hx; [done | by left | done |].
    intros _. unfold truthy. by rewrite Ha, Hea.
  - apply String.eqb_neq in Ht.
    rewrite (Hall img lp) in Hx; [done | by left | done | done].
Qed.

Lemma caption_loop_done images fs img lp :
  (loop images fs).2 = Ok () →
  img ∈ images → local_path img = Some lp →
  (extension = "txt" → truthy (alt img) = true) →
  fs_exists (loop images fs).1 (sidecar lp) = true.
Proof.
  revert fs. induction images as [| img0 rest IH]; intros fs Hok Hin Hlp Hcap.
  { by apply elem_of_nil in Hin. }
  assert (Hwrite : ∀ content fs',
            fs_write fs (sidecar lp) content = Ok fs' →
            fs_exists (loop rest fs').1 (sidecar lp) = true).
  { intros content fs' [Hf _]%fs_write_files. apply caption_loop_exists.
    apply (fs_exists_files _ _ content). rewrite Hf. apply lookup_insert_eq. }
  apply elem_of_cons in Hin as [<- | Hin].
  - simpl in *. rewrite Hlp in *.
    destruct (fs_exists fs (sidecar lp)) eqn:Hx; [by apply caption_loop_exists |].
    destruct (String.eqb extension "json") eqn:Hj.
    { destruct (fs_write fs _ (to_json img)) as [fs' |] eqn:Hw; [by eapply Hwrite | done]. }
    destruct (String.eqb extension "txt") eqn:Ht; [| done].
    apply String.eqb_eq in Ht. specialize (Hcap Ht).
    unfold truthy in Hcap. destruct (alt img) as [a |]; [| done].
    rewrite Hcap in *.
    destruct (fs_write fs _ a) as [fs' |] eqn:Hw; [by eapply Hwrite | done].
  - simpl in *.
    repeat (case_match; simplify_eq; simpl in *; try done); by apply IH.
Qed.

Lemma caption_loop_dir_untouched images fs p :
  p ∈ dirs fs → files fs !! p = None → files (loop images fs).1 !! p = None.
Proof.
  revert fs. induction images as [| img rest IH]; intros fs Hd Hn; [done |].
  assert (∀ lp content fs', fs_exists fs (sidecar lp) = false →
            fs_write fs (sidecar lp) content = Ok fs' →
            files (loop rest fs').1 !! p = None) as Hw.
  { intros lp content fs' Hx [Hf Hdirs]%fs_write_files.
    apply IH; [by rewrite Hdirs |]. rewrite Hf, lookup_insert_ne; [done |].
    intros <-. unfold fs_exists in Hx. apply orb_false_iff in Hx as [_ Hx].
    by apply bool_decide_eq_false in Hx. }
  simpl. destruct (local_path img) as [lp |]; [| by apply IH].
  destruct (fs_exists fs (sidecar lp)) eqn:Hx; [by apply IH |].
  repeat (case_match; simpl; eauto).
Qed.

(** X17. Running [add_captions_to_file] again after a run that returned
    normally writes nothing and returns normally. *)
Theorem captions_rerun (images : list PinterestMedia) (fs : filesystem) :
  let result := add_captions_to_file to_json images output_dir extension fs in
  result.2 = Ok () →
  add_captions_to_file to_json images output_dir extension result.1 = (result.1, Ok ()).
Proof.
  intros result Hok.
  destruct (bool_decide (is_Some (files fs !! output_dir))) eqn:Hfile.
  { unfold result, add_captions_to_file, fs_mkdir in Hok. by rewrite Hfile in Hok. }
  set (fs1 := {| files := files fs; dirs := {[output_dir]} ∪ dirs fs;
                 read_denied := read_denied fs; write_denied := write_denied fs |}).
  assert (result = loop images fs1) as Hrun.
  { unfold result, add_captions_to_file, fs_mkdir. by rewrite Hfile. }
  rewrite Hrun in *. clear Hrun result.
  apply bool_decide_eq_false in Hfile. apply eq_None_not_Some in Hfile.
  set (fs2 := (loop images fs1).1) in *.
  assert (files fs2 !! output_dir = None) as Hnone.
  { apply caption_loop_dir_untouched; [| done]. simpl.
    by apply elem_of_union_l, elem_of_singleton. }
  assert (dirs fs2 = {[output_dir]} ∪ dirs fs) as Hdirs.
  { unfold fs2. by rewrite caption_loop_dirs. }
  unfold add_captions_to_file, fs_mkdir.
  rewrite bool_decide_eq_false_2 by (rewrite Hnone; by intros [? ?]).
  assert ({| files := files fs2; dirs := {[output_dir]} ∪ dirs fs2;
             read_denied := read_denied fs2; write_denied := write_denied fs2 |} = fs2)
    as ->.
  { assert ({[output_dir]} ∪ dirs fs2 = dirs fs2) as ->
      by (rewrite Hdirs, (assoc_L (∪)), (idemp_L (∪)); done).
    by destruct fs2. }
  apply (caption_loop_settled images fs2). intros img lp Hin Hlp Hcap.
  by apply (caption_loop_done images fs1 img lp).
Qed.

Lemma caption_loop_invalid images fs :
  extension ≠ "json" → extension ≠ "txt" →
  (loop images fs).1 = fs
  ∧ ((∀ img lp, img ∈ images → local_path img = Some lp →
                fs_exists fs (sidecar lp) = true) → (loop images fs).2 = Ok ())
  ∧ ((∃ img lp, img ∈ images ∧ local_path img = Some lp ∧
                fs_exists fs (sidecar lp) = false) → (loop images fs).2 = Raise ValueError).
Proof.
  intros Hj%String.eqb_neq Ht%String.eqb_neq.
  induction images as [| img rest (IH1 & IH2 & IH3)].
  { split; [done |]. split; [done |]. intros (img & lp & Hin & _). by apply elem_of_nil in Hin. }
  simpl. destruct (local_path img) as [lp |] eqn:Hlp.
  2: { split; [done |]. split.
       - intros Hall. apply IH2. intros img0 lp0 Hin. apply Hall. by right.
       - intros (img0 & lp0 & [-> | Hin]%elem_of_cons & Hlp0 & Hx); [congruence |].
         apply IH3. eauto. }
  destruct (fs_exists fs (sidecar lp)) eqn:Hx.
  - split; [done |]. split.
    + intros Hall. apply IH2. intros img0 lp0 Hin. apply Hall. by right.
    + intros (img0 & lp0 & [-> | Hin]%elem_of_cons & Hlp0 & Hx0); [congruence |].
      apply IH3. eauto.
  - rewrite Hj, Ht. simpl. split; [done |]. split; [| done].
    intros Hall. rewrite (Hall img lp) in Hx; [done | by left | done].
Qed.

(** X18. An extension other than [json] and [txt] is found out only when
    an item is about to be written: the run raises [ValueError] when some
    item with a local path lacks its sidecar, and returns normally, without
    a word, when there is no such item. No file is written either way. *)
Theorem captions_invalid_extension (images : list PinterestMedia) (fs : filesystem) :
  extension ≠ "json" → extension ≠ "txt" → files fs !! output_dir = None →
  let result := add_captions_to_file to_json images output_dir extension fs in
  files result.1 = files fs
  ∧ ((∀ img lp, img ∈ images → local_path img = Some lp →
                fs_exists fs (sidecar lp) = true) → result.2 = Ok ())
  ∧ ((∃ img lp, img ∈ images ∧ local_path img = Some lp ∧
                fs_exists fs (sidecar lp) = false ∧ sidecar lp ≠ output_dir) →
     result.2 = Raise ValueError).
Proof.
  intros Hj Ht Hdir result.
  set (fs1 := {| files := files fs; dirs := {[output_dir]} ∪ dirs fs;
                 read_denied := read_denied fs; write_denied := write_denied fs |}).
  assert (result = loop images fs1) as ->.
  { unfold result, add_captions_to_file, fs_mkdir.
    rewrite bool_decide_eq_false_2; [done |]. rewrite Hdir. by intros [? ?]. }
  assert (∀ p, fs_exists fs1 p = fs_exists fs p || bool_decide (p = output_dir)) as Hex.
  { intros p. unfold fs_exists. simpl.
    destruct (bool_decide (is_Some (files fs !! p))); [done |]. simpl.
    rewrite <- bool_decide_or. apply bool_decide_ext.
    rewrite elem_of_union, elem_of_singleton. tauto. }
  destruct (caption_loop_invalid images fs1 Hj Ht) as (H1 & H2 & H3).
  split; [by rewrite H1 |]. split.
  - intros Hall. apply H2. intros img lp Hin Hlp.
    by rewrite Hex, (Hall img lp Hin Hlp).
  - intros (img & lp & Hin & Hlp & Hx & Hne). apply H3. exists img, lp.
    split; [done |]. split; [done |]. rewrite Hex, Hx. by apply bool_decide_eq_false.
Qed.

End CaptionsMore.

Lemma captions_rerun_witness :
  let result := add_captions_to_file (λ _, "{}")
                  [Examples.photo; Examples.broken; Examples.silent] "captions" "txt"
                  Examples.fs_captions in
  add_captions_to_file (λ _, "{}") [Examples.photo; Examples.broken; Examples.silent]
    "captions" "txt" result.1 = (result.1, Ok ()).
Proof.
  apply (captions_rerun (λ _, "{}") "captions" "txt"
           [Examples.photo; Examples.broken; Examples.silent] Examples.fs_captions).
  vm_compute. reflexivity.
Defined.

Lemma captions_invalid_extension_witness :
  let result := add_captions_to_file (λ _, "{}")
                  [Examples.photo; Examples.broken] "captions" "md" Examples.fs_captions in
  files result.1 = files Examples.fs_captions
  ∧ ((∀ img lp, img ∈ [Examples.photo; Examples.broken] → local_path img = Some lp →
                fs_exists Examples.fs_captions (caption_path "captions" "md" lp) = true) →
     result.2 = Ok ())
  ∧ ((∃ img lp, img ∈ [Examples.photo; Examples.broken] ∧ local_path img = Some lp ∧
                fs_exists Examples.fs_captions (caption_path "captions" "md" lp) = false ∧
                caption_path "captions" "md" lp ≠ "captions") →
     result.2 = Raise ValueError).
Proof.
  apply (captions_invalid_extension (λ _, "{}") "captions" "md"
           [Examples.photo; Examples.broken] Examples.fs_captions).
  - discriminate.
  - discriminate.
  - vm_compute. reflexivity.
Defined.

(** ** [search_images] and the "Scrape" button of [main] *)

Lemma recurse_loop_ext {W : Type} (call call' : W → PinterestMedia → W * run * outcome unit)
    seed imgs w :
  (∀ w0 img, call w0 img = call' w0 img) →
  recurse_loop W call seed imgs w = recurse_loop W call' seed imgs w.
Proof.
  intros Hext. revert w. induction imgs as [| img rest IH]; intros w; simpl; [done |].
  destruct (bool_decide _); [apply IH |].
  rewrite Hext. destruct (call' w img) as [[w1 t] [[] | e]]; [| done].
  by rewrite IH.
Qed.

Section MainProps.
Context {W : Type}.
Context (api_scrape : W → string → Z → W * outcome (list PinterestMedia)).
Context (cookies_missing : W → bool).
Context (download : W → list PinterestMedia → string → W).
Context (log_urls : W → string → list string → W).
Context (write_cache : W → string → list PinterestMedia → W).

Lemma scrape_images_browser_ext (api api' : W → string → string → W)
    depth w url project_name project_dir res_x res_y limit :
  scrape_images W api_scrape cookies_missing download log_urls write_cache api
    depth w url project_name project_dir res_x res_y limit true
  = scrape_images W api_scrape cookies_missing download log_urls write_cache api'
      depth w url project_name project_dir res_x res_y limit true.
Proof.
  revert w url project_name project_dir.
  induction depth as [| depth IH]; intros w url project_name project_dir; simpl; [done |].
  destruct (_ || _); [done |]. destruct (cookies_missing w); [done |].
  destruct (api_scrape w url limit) as [w1 [scraped_imgs | e]]; [| done].
  destruct (filter_resolution _ _ _) as [| img imgs]; [done |].
  erewrite recurse_loop_ext; [done |]. intros w0 img0. apply IH.
Qed.

(** X19: in board mode a visual-search URL always runs the browser pipeline:
    whatever the browser toggle says, and whatever the API pipeline would
    do, the run is the same, at every depth of the recursion. *)
Theorem board_visual_search_uses_browser (api api' : W → string → string → W)
    (depth : nat) (w : W) (query project_name project_dir : string)
    (res_x res_y limit : Z) (use_browser use_browser' : bool) :
  contains "visual-search" query = true →
  main_board W api_scrape cookies_missing download log_urls write_cache api
    depth w query project_name project_dir res_x res_y limit use_browser
  = main_board W api_scrape cookies_missing download log_urls write_cache api'
      depth w query project_name project_dir res_x res_y limit use_browser'.
Proof.
  intros Hvs. unfold main_board, effective_browser. rewrite Hvs.
  apply scrape_images_browser_ext.
Qed.

End MainProps.

Lemma board_visual_search_uses_browser_witness :
  contains "visual-search" Examples.visual_search_page = true
  ∧ main_board unit Examples.api_scrape (λ _, false) (λ w _ _, w) (λ w _ _, w) (λ w _ _, w)
      (λ w _ _, w) 2 () Examples.visual_search_page "cats" "downloads/cats" 0 0 5 false
    = main_board unit Examples.api_scrape (λ _, false) (λ w _ _, w) (λ w _ _, w) (λ w _ _, w)
        (λ w _ _, w) 2 () Examples.visual_search_page "cats" "downloads/cats" 0 0 5 true.
Proof.
  split; [reflexivity |].
  apply (board_visual_search_uses_browser Examples.api_scrape (λ _, false)
           (λ w _ _, w) (λ w _ _, w) (λ w _ _, w) (λ w _ _, w) (λ w _ _, w)).
  reflexivity.
Defined.

Section SearchProps.
Context {W : Type}.
Context (mkdir_cache : W → W * outcome unit).
Context (dir_exists : W → string → bool).
Context (cookies_missing : W → bool).
Context (search_and_download : W → string → string → Z → W * outcome unit).
Context (log_cached_urls : W → string → W * outcome unit).

#[local] Abbreviation search :=
  (search_images W mkdir_cache dir_exists cookies_missing search_and_download
     log_cached_urls).

(** X20: in search mode a visual-search URL is always refused: the run
    ends with an error message and without a success message, and the
    world is the one the cache directory's creation left: nothing is
    searched or downloaded. *)
Theorem search_visual_search_refused (w w0 : W) (query project_name project_dir : string)
    (limit : Z) (use_browser : bool) :
  contains "visual-search" query = true →
  mkdir_cache w = (w0, Ok ()) →
  ∃ st, main_search W mkdir_cache dir_exists cookies_missing search_and_download
          log_cached_urls w query project_name project_dir limit use_browser
        = (w0, st, Ok ())
        ∧ state_success st = None
        ∧ state_error st =
            Some (if String.eqb project_name ""
                  then "Please enter a query and Project Name!"
                  else "Browser scraping not supported for search mode. Please use API mode.").
Proof.
  intros Hvs Hmk. unfold main_search, effective_browser, search_images.
  rewrite Hvs, Hmk.
  assert (String.eqb query "" = false) as -> by (by destruct query).
  simpl. destruct (String.eqb project_name "").
  - by eexists.
  - eexists. split; [done |]. by destruct (dir_exists w0 project_dir).
Qed.

(** X21: [search_images] sets the success message exactly when the search
    was allowed to start and the call of [search_and_download], with the
    set-up of its API instance, returned: both names given, the browser
    off, the cookies in place; the error message is then the one the run
    started with. *)
Theorem search_success (w w' : W) (st st' : session_state)
    (query project_name project_dir : string) (limit : Z) (use_browser : bool)
    (r : outcome unit) :
  state_success st = None →
  search w st query project_name project_dir limit use_browser = (w', st', r) →
  (state_success st' ≠ None ↔
   query ≠ "" ∧ project_name ≠ "" ∧ use_browser = false
   ∧ ∃ w0 w1, mkdir_cache w = (w0, Ok ()) ∧ cookies_missing w0 = false
              ∧ search_and_download w0 query project_dir limit = (w1, Ok ()))
  ∧ (state_success st' ≠ None → state_error st' = state_error st).
Proof.
  intros Hst. unfold search_images.
  destruct (mkdir_cache w) as [w0 [[] | e]] eqn:Hmk; last first.
  { intros [= <- <- <-]. split; [| done]. split; [done |].
    by intros (_ & _ & _ & ? & ? & [=] & _). }
  destruct (String.eqb query "") eqn:Hq; simpl.
  { intros [= <- <- <-]. simpl. split; [| done]. split; [done |].
    apply String.eqb_eq in Hq. by intros (? & _). }
  destruct (String.eqb project_name "") eqn:Hp; simpl.
  { intros [= <- <- <-]. simpl. split; [| done]. split; [done |].
    apply String.eqb_eq in Hp. by intros (_ & ? & _). }
  apply String.eqb_neq in Hq, Hp.
  set (st1 := if dir_exists w0 project_dir then _ else st).
  assert (state_success st1 = None ∧ state_error st1 = state_error st) as [Hs1 He1].
  { subst st1. by destruct (dir_exists w0 project_dir). }
  destruct use_browser.
  { intros [= <- <- <-]. simpl. split; [| by rewrite Hs1]. split; [by rewrite Hs1 |].
    by intros (_ & _ & ? & _). }
  destruct (cookies_missing w0) eqn:Hc.
  { intros [= <- <- <-]. simpl. split; [| by rewrite Hs1]. split; [by rewrite Hs1 |].
    intros (_ & _ & _ & w0' & w1 & [= <-] & Hc' & _). congruence. }
  destruct (search_and_download w0 query project_dir limit) as [w1 [[] | e]] eqn:Hsd.
  - destruct (log_cached_urls w1 project_dir) as [w2 [[] | e]];
      intros [= <- <- <-]; simpl; (split; [| done]);
      (split; [intros _; repeat split; try done; by exists w0, w1 | done]).
  - intros [= <- <- <-]. split; [| by rewrite Hs1]. split; [by rewrite Hs1 |].
    intros (_ & _ & _ & w0' & w1' & [= <-] & _ & Hsd'). congruence.
Qed.

End SearchProps.

Lemma search_visual_search_refused_witness :
  ∃ st, main_search (list string) Examples.journal_mkdir (λ _ _, false) (λ _, false)
          Examples.journal_search Examples.journal_log [] Examples.visual_search_page
          "cats" "downloads/cats" 20 false
        = (["mkdir downloads/_cache"], st, Ok ())
        ∧ state_success st = None
        ∧ state_error st =
            Some "Browser scraping not supported for search mode. Please use API mode.".
Proof.
  apply (search_visual_search_refused Examples.journal_mkdir (λ _ _, false) (λ _, false)
           Examples.journal_search Examples.journal_log [] ["mkdir downloads/_cache"]
           Examples.visual_search_page "cats" "downloads/cats" 20 false);
    reflexivity.
Defined.

Lemma search_success_witness :
  (state_success (set_success no_messages "Scrape Complete!") ≠ None ↔
   "cats" ≠ "" ∧ "cats" ≠ "" ∧ false = false
   ∧ ∃ w0 w1, Examples.journal_mkdir [] = (w0, Ok ()) ∧ (λ _ : list string, false) w0 = false
              ∧ Examples.journal_search w0 "cats" "downloads/cats" 20 = (w1, Ok ()))
  ∧ (state_success (set_success no_messages "Scrape Complete!") ≠ None →
     state_error (set_success no_messages "Scrape Complete!") = state_error no_messages).
Proof.
  apply (search_success Examples.journal_mkdir (λ _ _, false) (λ _, false)
           Examples.journal_search Examples.journal_log []
           ["mkdir downloads/_cache"; "search cats"; "log downloads/cats"]
           no_messages (set_success no_messages "Scrape Complete!")
           "cats" "cats" "downloads/cats" 20 false (Ok ()));
    reflexivity.
Defined.

(** ** [download_media] as a whole *)

Lemma same_pin_refl m : same_pin m m.
Proof. by repeat split. Qed.

Lemma same_pin_trans a b c : same_pin a b → same_pin b c → same_pin a c.
Proof.
  intros (? & ? & ? & ? & ?) (? & ? & ? & ? & ?). repeat split; congruence.
Qed.

Lemma same_pin_local fs loaded item :
  same_pin item (local_from_registry fs loaded item).
Proof.
  unfold local_from_registry. destruct (loaded !! id item) as [e |]; [| apply same_pin_refl].
  destruct (fs_exists fs (registered_path e)); [by repeat split | apply same_pin_refl].
Qed.

Lemma satisfied_local fs loaded item :
  satisfied fs loaded item = true →
  ∃ p, local_path (local_from_registry fs loaded item) = Some p ∧ fs_exists fs p = true.
Proof.
  unfold satisfied, local_from_registry. destruct (loaded !! id item) as [e |]; [| done].
  intros Hx. rewrite Hx. by eexists.
Qed.

Lemma fst_zip_take {A B : Type} (l : list A) (k : list B) :
  (zip l k).*1 = take (length k) l.
Proof.
  revert k. induction l as [| a l IH]; intros [| b k]; simpl; [done | done | done |].
  by rewrite IH.
Qed.

Lemma put_back_same fs loaded media upd n :
  Forall2 same_pin (take n (List.filter (λ item, negb (satisfied fs loaded item)) media))
    upd →
  Forall2 same_pin media (put_back fs loaded media upd).
Proof.
  revert upd n. induction media as [| item rest IH]; intros upd n H; simpl; [done |].
  simpl in H. destruct (satisfied fs loaded item); simpl in H.
  - constructor; [apply same_pin_local | by eapply IH].
  - destruct n as [| n]; simpl in H.
    + apply Forall2_nil_inv_l in H as ->. constructor; [apply same_pin_refl |].
      by apply (IH [] O).
    + apply Forall2_cons_inv_l in H as (d & upd' & Hd & H & ->).
      constructor; [done | by eapply IH].
Qed.

Lemma put_back_local fs loaded media upd :
  Forall2 (λ (_ d : PinterestMedia), is_Some (local_path d))
    (List.filter (λ item, negb (satisfied fs loaded item)) media) upd →
  Forall (λ m, is_Some (local_path m)) (put_back fs loaded media upd).
Proof.
  revert upd. induction media as [| item rest IH]; intros upd H; simpl; [done |].
  simpl in H. destruct (satisfied fs loaded item) eqn:Hs; simpl in H.
  - constructor; [| by apply IH].
    destruct (satisfied_local _ _ _ Hs) as (p & -> & _). by eexists.
  - apply Forall2_cons_inv_l in H as (d & upd' & Hd & H & ->).
    constructor; [done | by apply IH].
Qed.

Section DownloadProps.
Context (json_loads : string → outcome (gmap pyid entry)).
Context (json_dumps : gmap pyid entry → string).
Context (ffmpeg_found : bool).
Context (download_concurrent :
  filesystem → list PinterestMedia → string → bool → filesystem * outcome (list string)).
Context (mtime : filesystem → string → string).
Context (local_resolution : filesystem → string → measurement).

#[local] Abbreviation record := (record_loop mtime local_resolution).
#[local] Abbreviation run_download :=
  (download_media json_loads json_dumps ffmpeg_found download_concurrent mtime
     local_resolution).

Lemma measure_item_spec fs item path item1 :
  measure_item local_resolution fs item path = Ok item1 →
  same_pin item item1 ∧ local_path item1 = local_path item.
Proof.
  unfold measure_item. destruct (bool_decide _).
  - destruct (local_resolution fs path); intros [= <-]; by repeat split.
  - intros [= <-]. by repeat split.
Qed.

Lemma record_loop_spec fs pairs registry registry' upd :
  record fs pairs registry = Ok (registry', upd) →
  Forall2 (λ pr d, same_pin pr.1 d ∧ local_path d = Some pr.2) pairs upd
  ∧ (∀ k, k ∉ map (λ pr, id pr.1) pairs → registry' !! k = registry !! k)
  ∧ (∀ pr, pr ∈ pairs →
       ∃ e path, registry' !! id pr.1 = Some e ∧ entry_path e = Some path
                 ∧ path ∈ pairs.*2 ∧ fs_exists fs path = true).
Proof.
  revert registry registry' upd.
  induction pairs as [| [item path] rest IH]; intros registry registry' upd; simpl.
  - intros [= <- <-]. split; [done |]. split; [done |].
    intros pr Hin. by apply elem_of_nil in Hin.
  - destruct (fs_exists fs path) eqn:Hx; [| done].
    destruct (measure_item _ _ _ _) as [item1 |] eqn:Hm; [| done].
    destruct (record fs rest _) as [[registry2 upd2] |] eqn:Hrec; [| done].
    intros [= <- <-].
    destruct (IH _ _ _ Hrec) as (Hupd & Hkeep & Hin).
    apply measure_item_spec in Hm as [Hsame Hlp].
    split; [| split].
    + constructor; [| done]. simpl. split; [| by rewrite Hlp].
      eapply same_pin_trans; [| done]. by repeat split.
    + intros k Hk. apply not_elem_of_cons in Hk as [Hne Hk].
      rewrite (Hkeep k Hk). by rewrite lookup_insert_ne.
    + intros pr Hpr. apply elem_of_cons in Hpr as [-> | Hpr].
      * simpl. destruct (decide (id item ∈ map (λ pr, id pr.1) rest)) as [Hdup | Hnew].
        -- apply list_elem_of_fmap in Hdup as (pr' & Hid & Hpr').
           destruct (Hin pr' Hpr') as (e & path' & He & Hp & Hmem & Hex).
           exists e, path'. rewrite Hid. repeat split; try done. by right.
        -- eexists _, path. rewrite (Hkeep _ Hnew), lookup_insert_eq.
           repeat split; try done. by left.
      * destruct (Hin pr Hpr) as (e & path' & He & Hp & Hmem & Hex).
        exists e, path'. repeat split; try done. by right.
Qed.

Lemma record_loop_missing fs pairs registry pr :
  pr ∈ pairs → fs_exists fs pr.2 = false →
  ∃ e, record fs pairs registry = Raise e.
Proof.
  revert registry. induction pairs as [| [item path] rest IH]; intros registry Hin Hx.
  - by apply elem_of_nil in Hin.
  - simpl. destruct (fs_exists fs path) eqn:Hx'; [| by eexists].
    destruct (measure_item _ _ _ _) as [item1 | e]; [| by eexists].
    apply elem_of_cons in Hin as [-> | Hin]; [simpl in Hx; congruence |].
    edestruct IH as [e ->]; [done | done |]. by eexists.
Qed.

(** X22: what [download_media] returns is [media], item for item: the
    same pins in the same order, changed at most in local path and
    resolution. When the downloader gives a path for every item it was
    handed, every returned item has a local path. *)
Theorem download_media_result (fs fs' : filesystem) (media result : list PinterestMedia)
    (output_dir : string) (download_streams : bool) (log : list log_record) :
  run_download fs media output_dir download_streams = (fs', Ok result, log) →
  Forall2 same_pin media result
  ∧ ((∀ fs0 l d s fs1 paths,
        download_concurrent fs0 l d s = (fs1, Ok paths) → (length l ≤ length paths)%nat) →
     Forall (λ m, is_Some (local_path m)) result).
Proof.
  unfold download_media.
  destruct (fs_mkdir fs output_dir) as [fs0 | e]; [| done].
  destruct (_load_downloaded_registry json_loads fs0 output_dir) as [[loaded | e] log0];
    [| done].
  pose proof (filter_loop_to_download fs0 loaded media loaded [] (repaired_refl _ _)) as Hq.
  pose proof (filter_loop_media_after fs0 loaded media loaded [] (repaired_refl _ _)) as Hm.
  fold (download_media_filter fs0 loaded media) in Hq, Hm. simpl in Hq.
  set (p := download_media_filter fs0 loaded media) in *.
  destruct (to_download p) as [| item0 queue] eqn:Hp.
  - intros [= <- <- <-]. rewrite Hm. split.
    + clear. induction media as [| item rest IH]; simpl; constructor;
        [apply same_pin_local | done].
    + intros _. apply Forall_forall. intros m Hin.
      apply list_elem_of_fmap in Hin as (item & -> & Hin).
      destruct (satisfied fs0 loaded item) eqn:Hs.
      * destruct (satisfied_local _ _ _ Hs) as (path & -> & _). by eexists.
      * assert (item ∈ List.filter (λ item, negb (satisfied fs0 loaded item)) media) as Hin'.
        { apply list_elem_of_In, filter_In. split; [by apply list_elem_of_In | by rewrite Hs]. }
        rewrite <- Hq in Hin'. by apply elem_of_nil in Hin'.
  - destruct (download_concurrent fs0 _ output_dir _) as [fs1 [paths | e]] eqn:Hdl; [| done].
    destruct (record fs1 _ _) as [[registry upd] | e] eqn:Hrec; [| done].
    destruct (_save_downloaded_registry _ _ _ _) as [[fs2 | e] log2]; [| done].
    intros [= <- <- <-].
    destruct (record_loop_spec _ _ _ _ _ Hrec) as (Hupd & _ & _).
    split.
    + apply (put_back_same fs0 loaded media upd (length paths)).
      rewrite <- Hq, <- fst_zip_take.
      apply Forall2_fmap_l. eapply Forall2_impl; [exact Hupd |]. by intros pr d [? _].
    + intros Hlen. apply Hlen in Hdl. apply put_back_local. rewrite <- Hq.
      rewrite <- (fst_zip (item0 :: queue) paths) by (simpl in *; lia).
      apply Forall2_fmap_l. eapply Forall2_impl; [exact Hupd |].
      intros pr d [_ Hd]. simpl. rewrite Hd. by eexists.
Qed.

(** X23: after a run that downloaded, the registry that is saved holds
    every item the downloader was handed, under the item's id, with one of
    the returned paths, and that path exists; the other keys are as the
    filter left them. The downloader is taken to return a path for every
    item. *)
Theorem download_media_records (fs fs0 fs1 fs' : filesystem) (loaded : gmap pyid entry)
    (media result : list PinterestMedia) (output_dir : string) (download_streams : bool)
    (paths : list string) (log0 log : list log_record) :
  fs_mkdir fs output_dir = Ok fs0 →
  _load_downloaded_registry json_loads fs0 output_dir = (Ok loaded, log0) →
  let p := download_media_filter fs0 loaded media in
  to_download p ≠ [] →
  download_concurrent fs0 (to_download p) output_dir (download_streams && ffmpeg_found)
    = (fs1, Ok paths) →
  (length (to_download p) ≤ length paths)%nat →
  run_download fs media output_dir download_streams = (fs', Ok result, log) →
  ∃ registry log2,
    _save_downloaded_registry json_dumps fs1 output_dir registry = (Ok fs', log2)
    ∧ (∀ item, item ∈ to_download p →
         ∃ e path, registry !! id item = Some e ∧ entry_path e = Some path
                   ∧ path ∈ paths ∧ fs_exists fs1 path = true)
    ∧ (∀ k, k ∉ map id (to_download p) → registry !! k = registry_after p !! k).
Proof.
  intros Hmk Hload p Hne Hdl Hlen. unfold download_media. rewrite Hmk, Hload.
  fold p. destruct (to_download p) as [| item0 queue] eqn:Hp; [done |].
  rewrite Hdl.
  destruct (record fs1 _ _) as [[registry upd] | e] eqn:Hrec; [| done].
  destruct (_save_downloaded_registry _ _ _ _) as [[fs2 | e] log2] eqn:Hsave; [| done].
  intros [= <- <- <-]. exists registry, log2. split; [done |].
  destruct (record_loop_spec _ _ _ _ _ Hrec) as (_ & Hkeep & Hin).
  assert ((zip (item0 :: queue) paths).*1 = item0 :: queue) as Hfst by (by apply fst_zip).
  split.
  - intros item Hitem. rewrite <- Hfst in Hitem.
    apply list_elem_of_fmap in Hitem as (pr & -> & Hpr).
    destruct (Hin pr Hpr) as (e & path & He & Hpath & Hmem & Hex).
    exists e, path. repeat split; try done.
    apply list_elem_of_fmap in Hmem as (pr' & -> & Hpr').
    destruct pr' as [a b]. by apply elem_of_zip_r in Hpr'.
  - intros k Hk. apply Hkeep. intros Hk'. apply Hk.
    rewrite <- Hfst at 1. by rewrite <- list_fmap_compose.
Qed.

(** X24: when the downloader returns a path at which there is no file,
    [download_media] raises: in the loop that records the downloads [stat]
    fails on that path, unless the measuring of an earlier item has raised
    before; the registry is not saved, and the file system stays as the
    downloader left it. *)
Theorem download_media_missing_file (fs fs0 fs1 : filesystem) (loaded : gmap pyid entry)
    (media : list PinterestMedia) (output_dir : string) (download_streams : bool)
    (paths : list string) (log0 : list log_record) (item : PinterestMedia) (path : string) :
  fs_mkdir fs output_dir = Ok fs0 →
  _load_downloaded_registry json_loads fs0 output_dir = (Ok loaded, log0) →
  let p := download_media_filter fs0 loaded media in
  download_concurrent fs0 (to_download p) output_dir (download_streams && ffmpeg_found)
    = (fs1, Ok paths) →
  (item, path) ∈ zip (to_download p) paths →
  fs_exists fs1 path = false →
  ∃ e log, run_download fs media output_dir download_streams = (fs1, Raise e, log).
Proof.
  intros Hmk Hload p Hdl Hin Hx. unfold download_media. rewrite Hmk, Hload. fold p.
  destruct (to_download p) as [| item0 queue] eqn:Hp; [by apply elem_of_nil in Hin |].
  rewrite Hdl.
  destruct (record_loop_missing fs1 _ (registry_after p) _ Hin Hx) as [e ->].
  by eexists _, _.
Qed.

(** X25: when the registry and the disk account for every item,
    [download_media] neither downloads nor writes: it returns the items
    with the registered paths, and the file system is as the creation of
    the output directory left it. *)
Theorem download_media_all_present (fs fs0 : filesystem) (loaded : gmap pyid entry)
    (media : list PinterestMedia) (output_dir : string) (download_streams : bool)
    (log0 : list log_record) :
  fs_mkdir fs output_dir = Ok fs0 →
  _load_downloaded_registry json_loads fs0 output_dir = (Ok loaded, log0) →
  Forall (λ item, satisfied fs0 loaded item = true) media →
  run_download fs media output_dir download_streams
  = (fs0, Ok (map (local_from_registry fs0 loaded) media), log0)
  ∧ Forall (λ m, ∃ path, local_path m = Some path ∧ fs_exists fs0 path = true)
      (map (local_from_registry fs0 loaded) media).
Proof.
  intros Hmk Hload Hsat. unfold download_media. rewrite Hmk, Hload.
  pose proof (filter_loop_to_download fs0 loaded media loaded [] (repaired_refl _ _)) as Hq.
  pose proof (filter_loop_media_after fs0 loaded media loaded [] (repaired_refl _ _)) as Hm.
  fold (download_media_filter fs0 loaded media) in Hq, Hm. simpl in Hq.
  assert (List.filter (λ item, negb (satisfied fs0 loaded item)) media = []) as Hnone.
  { clear -Hsat. induction Hsat as [| item rest Hs _ IH]; simpl; [done |]. by rewrite Hs. }
  rewrite Hnone in Hq. rewrite Hq, Hm. split; [done |].
  apply Forall_fmap. eapply Forall_impl; [exact Hsat |].
  intros item Hs. by apply satisfied_local.
Qed.

End DownloadProps.

Lemma download_media_result_witness :
  Forall2 same_pin [Examples.candidate7] Examples.download_cats_result
  ∧ Forall (λ m, is_Some (local_path m)) Examples.download_cats_result.
Proof.
  destruct (download_media_result Examples.loads7 Examples.dumps7 true Examples.fetch
              Examples.noon Examples.ruler Examples.fs_without_photo
              Examples.download_cats.1.1 [Examples.candidate7]
              Examples.download_cats_result "downloads/cats" false
              Examples.download_cats.2) as [Hsame Hlocal].
  - vm_compute. reflexivity.
  - split; [exact Hsame |]. apply Hlocal.
    intros fs0 l d s fs1 paths [= _ <-]. by rewrite length_map.
Defined.

Lemma download_media_records_witness :
  ∃ registry log2,
    _save_downloaded_registry Examples.dumps7 Examples.cats_fetched "downloads/cats"
      registry = (Ok Examples.download_cats.1.1, log2)
    ∧ (∀ item, item ∈ to_download (download_media_filter Examples.cats_made ∅
                                      [Examples.candidate7]) →
         ∃ e path, registry !! id item = Some e ∧ entry_path e = Some path
                   ∧ path ∈ ["downloads/cats/7.jpg"]
                   ∧ fs_exists Examples.cats_fetched path = true)
    ∧ (∀ k, k ∉ map id (to_download (download_media_filter Examples.cats_made ∅
                                        [Examples.candidate7])) →
         registry !! k
         = registry_after (download_media_filter Examples.cats_made ∅
                             [Examples.candidate7]) !! k).
Proof.
  apply (download_media_records Examples.loads7 Examples.dumps7 true Examples.fetch
           Examples.noon Examples.ruler Examples.fs_without_photo Examples.cats_made
           Examples.cats_fetched Examples.download_cats.1.1 ∅ [Examples.candidate7]
           Examples.download_cats_result "downloads/cats" false
           ["downloads/cats/7.jpg"] [] Examples.download_cats.2).
  - vm_compute. reflexivity.
  - vm_compute. reflexivity.
  - vm_compute. discriminate.
  - vm_compute. reflexivity.
  - vm_compute. lia.
  - vm_compute. reflexivity.
Defined.

Lemma download_media_missing_file_witness :
  ∃ e log, Examples.download_cats_nothing = (Examples.cats_made, Raise e, log).
Proof.
  apply (download_media_missing_file Examples.loads7 Examples.dumps7 true
           Examples.fetch_nothing Examples.noon Examples.ruler Examples.fs_without_photo
           Examples.cats_made Examples.cats_made ∅ [Examples.candidate7]
           "downloads/cats" false ["downloads/cats/7.jpg"] []
           Examples.candidate7 "downloads/cats/7.jpg").
  - vm_compute. reflexivity.
  - vm_compute. reflexivity.
  - vm_compute. reflexivity.
  - vm_compute. apply list_elem_of_here.
  - vm_compute. reflexivity.
Defined.

Lemma download_media_all_present_witness :
  download_media Examples.loads7 Examples.dumps7 true Examples.fetch Examples.noon
    Examples.ruler Examples.fs_registered [Examples.candidate7_api] "downloads/cats" false
  = (Examples.fs_registered_made,
     Ok (map (local_from_registry Examples.fs_registered_made Examples.registry7_read)
           [Examples.candidate7_api]), [])
  ∧ Forall (λ m, ∃ path, local_path m = Some path
                         ∧ fs_exists Examples.fs_registered_made path = true)
      (map (local_from_registry Examples.fs_registered_made Examples.registry7_read)
         [Examples.candidate7_api]).
Proof.
  apply (download_media_all_present Examples.loads7 Examples.dumps7 true Examples.fetch
           Examples.noon Examples.ruler Examples.fs_registered Examples.fs_registered_made
           Examples.registry7_read [Examples.candidate7_api] "downloads/cats" false []).
  - vm_compute. reflexivity.
  - vm_compute. reflexivity.
  - repeat constructor.
Defined.
